(** * The HTTP backend dispatcher of the gateway (package [httpbackend])

    A shallow embedding of [pkg/util/httpbackend/httpbackend.go]: the
    server-pool filter, the two validators, the constructor, the four
    load-balancing policies and the two dispatch entry points, followed by
    the properties the design document states about them. *)

From Stdlib Require Import ZArith Lia List.
From stdpp Require Import base strings gmap list pretty.

Local Open Scope Z_scope.

(** ** Go integers *)

(** Go's [int] is 32 or 64 bits wide, depending on the platform the gateway
    is built for. *)
Inductive int_size := Int32 | Int64.

Definition int_bits (sz : int_size) : Z :=
  match sz with Int32 => 32 | Int64 => 64 end.

(** [uint64] arithmetic wraps around. *)
Definition wrap_uint64 (z : Z) : Z := z mod 2 ^ 64.

Definition wrap_uint32 (z : Z) : Z := z mod 2 ^ 32.

(** The conversion [int(x)] of an unsigned value: the low [int_bits] bits,
    read in two's complement. *)
Definition to_int (sz : int_size) (z : Z) : Z :=
  let m := 2 ^ int_bits sz in
  let r := z mod m in
  if r <? m / 2 then r else r - m.

(** How a call ends: with a value, or with a run-time panic. *)
Inductive panic :=
| DivideByZero
| IndexOutOfRange
| NilDereference
| InvalidIntnArgument.

Inductive outcome (A : Type) :=
| Ret (a : A)
| Panic (p : panic).
Arguments Ret {A} a.
Arguments Panic {A} p.


(** Go's [a % b] on [int]: the remainder of the division truncated towards
    zero (it carries the sign of [a]); a zero divisor panics. *)
Definition go_rem (a b : Z) : outcome Z :=
  if b =? 0 then Panic DivideByZero else Ret (Z.rem a b).

(** [&s[i]]: a pointer to element [i] of a slice, given as the index and the
    element it points to; an index outside the slice panics. *)
Definition slice_at {A} (s : list A) (i : Z) : outcome (Z * A) :=
  if i <? 0 then Panic IndexOutOfRange
  else match s !! Z.to_nat i with
       | Some a => Ret (i, a)
       | None => Panic IndexOutOfRange
       end.

(** ** FNV-1a, 32 bits ([hash/fnv], [New32a]) *)

Definition fnv_offset32 : Z := 2166136261.
Definition fnv_prime32 : Z := 16777619.

Definition byte_of (c : Ascii.ascii) : Z := Z.of_N (Ascii.N_of_ascii c).

Fixpoint fnv32a_write (h : Z) (key : string) : Z :=
  match key with
  | EmptyString => h
  | String c rest =>
      fnv32a_write (wrap_uint32 (Z.lxor h (byte_of c) * fnv_prime32)) rest
  end.

Definition hash32Once (key : string) : Z := fnv32a_write fnv_offset32 key.

(** ** Configuration *)

Definition policyRoundRobin : string := "roundRobin".
Definition policyRandom : string := "random".
Definition policyIPHash : string := "ipHash".
Definition policyHeaderHash : string := "headerHash".

Record Server := {
  URL : string;
  Tags : list string;
}.

Record LoadBalance := {
  Policy : string;
  HeaderHashKey : string;
}.

(** Modelled from the spec: [common.StrInSlice] is not part of this package;
    the design document calls the inclusion test a set-subset test, so the
    helper reports whether the string occurs in the slice. *)
Definition StrInSlice (s : string) (ss : list string) : bool :=
  existsb (String.eqb s) ss.

(** Go's [len] of a string counts its bytes. *)
Definition len_string (s : string) : Z := Z.of_nat (String.length s).

Definition len {A} (l : list A) : Z := Z.of_nat (length l).

Section Backend.

(** The specifications of the two optional collaborators belong to the
    packages [httpadaptor] and [memorycache]; this package only tests them
    for [nil] and hands them to their constructors. *)
Context {AdaptorSpec CacheSpec : Type}.

Record Spec := {
  ServersTags : list string;
  Servers : list Server;
  spec_LoadBalance : option LoadBalance;
  spec_Adaptor : option AdaptorSpec;
  spec_MemoryCache : option CacheSpec;
}.

(** The first loop of [pickServers]: does any server declare a tag? *)
Fixpoint serverHasTag (ss : list Server) : bool :=
  match ss with
  | [] => false
  | server :: rest =>
      if negb (len (Tags server) =? 0) then true else serverHasTag rest
  end.

(** The inner loop: [allFound] stays true until a tag of the filter is
    missing from the server's tags. *)
Fixpoint allFound (tags : list string) (server : Server) : bool :=
  match tags with
  | [] => true
  | tag :: rest =>
      if negb (StrInSlice tag (Tags server)) then false
      else allFound rest server
  end.

(** The outer loop, appending to [servers] in the order of the configured
    list. *)
Fixpoint pickLoop (tags : list string) (ss acc : list Server) : list Server :=
  match ss with
  | [] => acc
  | server :: rest =>
      if allFound tags server then pickLoop tags rest (acc ++ [server])
      else pickLoop tags rest acc
  end.

Definition pickServers (s : Spec) : list Server :=
  if (len (ServersTags s) =? 0) && negb (serverHasTag (Servers s))
  then Servers s
  else pickLoop (ServersTags s) (Servers s) [].

(** [Spec.Validate]: [None] is Go's [nil] error. *)
Definition Spec_Validate (s : Spec) : option string :=
  let servers := pickServers s in
  if len servers =? 0 then Some "serversTags picks none of servers"%string
  else None.

(** [LoadBalance.Validate]. *)
Definition LoadBalance_Validate (lb : LoadBalance) : option string :=
  if String.eqb (Policy lb) policyHeaderHash && (len_string (HeaderHashKey lb) =? 0)
  then Some "headerHash needs to speficy headerHashKey"%string
  else None.


(** ** The request context

    Modelled from the spec: the HTTP context (package [context]) and its
    header type (package [httpheader]) are collaborators of this package.
    The design document gives their surface: the request's method, path,
    headers, body and resolved caller IP; the response's status, header and
    body setters; a sink of free-form tags; a hook run when the request
    finishes. A header lookup yields the value stored under the name, and
    the empty string when the request does not carry it. *)

Definition HTTPHeader : Type := gmap string (list string).

Definition Header_Get (h : HTTPHeader) (key : string) : string :=
  match h !! key with
  | Some (v :: _) => v
  | _ => ""%string
  end.

Definition Header_AddFromStd (h src : HTTPHeader) : HTTPHeader :=
  union_with (λ vs ws, Some (vs ++ ws)) h src.

Record HTTPRequest := {
  Method : string;
  Path : string;
  Header : HTTPHeader;
  RealIP : string;
  Body : string;
}.

Record HTTPResponse := {
  StatusCode : Z;
  RespHeader : HTTPHeader;
  RespBody : string;
}.

(** The closures handed to [ctx.OnFinish]; this package registers one, which
    tags the backend duration. *)
Inductive FinishFunc := TagBackendDuration.

Record HTTPContext := {
  Request : HTTPRequest;
  Response : HTTPResponse;
  CtxTags : list string;
  FinishFuncs : list FinishFunc;
}.

Definition AddTag (tag : string) (ctx : HTTPContext) : HTTPContext :=
  {| Request := Request ctx; Response := Response ctx;
     CtxTags := CtxTags ctx ++ [tag]; FinishFuncs := FinishFuncs ctx |}.

Definition with_Response (f : HTTPResponse → HTTPResponse) (ctx : HTTPContext)
  : HTTPContext :=
  {| Request := Request ctx; Response := f (Response ctx);
     CtxTags := CtxTags ctx; FinishFuncs := FinishFuncs ctx |}.

Definition SetStatusCode (code : Z) : HTTPContext → HTTPContext :=
  with_Response (λ w, {| StatusCode := code; RespHeader := RespHeader w;
                         RespBody := RespBody w |}).

Definition AddRespHeaderFromStd (src : HTTPHeader) : HTTPContext → HTTPContext :=
  with_Response (λ w, {| StatusCode := StatusCode w;
                         RespHeader := Header_AddFromStd (RespHeader w) src;
                         RespBody := RespBody w |}).

Definition SetBody (body : string) : HTTPContext → HTTPContext :=
  with_Response (λ w, {| StatusCode := StatusCode w; RespHeader := RespHeader w;
                         RespBody := body |}).

Definition OnFinish (fn : FinishFunc) (ctx : HTTPContext) : HTTPContext :=
  {| Request := Request ctx; Response := Response ctx;
     CtxTags := CtxTags ctx; FinishFuncs := FinishFuncs ctx ++ [fn] |}.

Definition StatusInternalServerError : Z := 500.
Definition StatusServiceUnavailable : Z := 503.

(** ** Collaborators *)

(** [ResponseGotFunc]: a callback that may inspect and change the context. *)
Definition ResponseGotFunc : Type := HTTPContext → HTTPContext.

(** Modelled from the spec: the adaptor (package [httpadaptor]), by its
    contract [AdaptRequest(context, mutateInPlace) -> (method, path,
    headers)] and [AdaptResponse(context)]; both may change the context. *)
Record HTTPAdaptor := {
  AdaptRequest : HTTPContext → bool → (string * string * HTTPHeader) * HTTPContext;
  AdaptResponse : HTTPContext → HTTPContext;
}.

(** Modelled from the spec: the cache (package [memorycache]), by its
    contract [Load(context) -> hit] (on a hit the response is already
    populated) and [Store(context)]. What [Store] keeps is the cache's own
    business: a call to it is recorded in the trace below. *)
Record MemoryCache := {
  Load : HTTPContext → bool * HTTPContext;
}.

(** The request handed to the shared client, and what comes back. *)
Record OutboundRequest := {
  out_method : string;
  out_url : string;
  out_header : HTTPHeader;
  out_body : string;
}.

Record BackendResponse := {
  br_StatusCode : Z;
  br_Header : HTTPHeader;
  br_Body : string;
}.

(** What the standard library supplies at run time: the pseudo-random draw
    behind [rand.Intn], the error (if any) of [http.NewRequest] for a method
    and a URL, and the result of [globalClient.Do]: an error text or a
    response. *)
Record Env := {
  rand_draw : Z → Z;
  NewRequest_err : string → string → option string;
  client_Do : OutboundRequest → string + BackendResponse;
}.

(** [rand.Intn(n)] panics unless [n > 0], and returns a value in [[0, n)]. *)
Definition rand_Intn (env : Env) (n : Z) : outcome Z :=
  if n <=? 0 then Panic InvalidIntnArgument else Ret (rand_draw env n mod n).

(** ** The code counter

    Modelled from the spec: [codecounter.go] is a sibling file of the
    package; the design document describes the counter as a mapping from a
    server's URL to a mapping from status code to a 64-bit occurrence count,
    and [count(server, code)] as incrementing that pair's count. *)
Definition codeCounter : Type := gmap string (gmap Z Z).

Definition newCodeCounter (servers : list Server) : codeCounter := ∅.

Definition codeCounter_count (cc : codeCounter) (server : Server) (code : Z)
  : codeCounter :=
  let inner := default ∅ (cc !! URL server) in
  <[URL server := <[code := wrap_uint64 (default 0 (inner !! code) + 1)]> inner]> cc.

Definition codeCounter_codes (cc : codeCounter) : gmap string (gmap Z Z) := cc.

(** ** The dispatcher *)

Record HTTPBackend := {
  spec : Spec;
  servers : list Server;
  codes : codeCounter;
  responseGotFuncs : list ResponseGotFunc;
  count : Z;
  adaptor : option HTTPAdaptor;
  memoryCache : option MemoryCache;
}.

Definition set_count (b : HTTPBackend) (c : Z) : HTTPBackend :=
  {| spec := spec b; servers := servers b; codes := codes b;
     responseGotFuncs := responseGotFuncs b; count := c;
     adaptor := adaptor b; memoryCache := memoryCache b |}.

Definition set_codes (b : HTTPBackend) (cc : codeCounter) : HTTPBackend :=
  {| spec := spec b; servers := servers b; codes := cc;
     responseGotFuncs := responseGotFuncs b; count := count b;
     adaptor := adaptor b; memoryCache := memoryCache b |}.

(** [OnResponseGot] registers a callback behind the ones already there. *)
Definition OnResponseGot (b : HTTPBackend) (fn : ResponseGotFunc) : HTTPBackend :=
  {| spec := spec b; servers := servers b; codes := codes b;
     responseGotFuncs := responseGotFuncs b ++ [fn]; count := count b;
     adaptor := adaptor b; memoryCache := memoryCache b |}.

(** [Codes] returns the status codes counted so far. *)
Definition Codes (b : HTTPBackend) : gmap string (gmap Z Z) :=
  codeCounter_codes (codes b).

(** The calls a dispatch makes to its collaborators, in the order made. *)
Inductive event :=
| LogError (msg : string)
| CacheLoad (hit : bool)
| CacheStore
| AdaptRequestCall (headerInPlace : bool)
| AdaptResponseCall
| NewRequestCall (method url : string)
| ClientDoCall (req : OutboundRequest)
| CodeCount (url : string) (code : Z)
| ResponseGotCall (i : nat)
| DrainBody.

Definition is_log (e : event) : bool :=
  match e with LogError _ => true | _ => false end.

Definition is_adapt_request (e : event) : bool :=
  match e with AdaptRequestCall _ => true | _ => false end.

Definition is_client_call (e : event) : bool :=
  match e with ClientDoCall _ => true | _ => false end.

Definition is_code_count (e : event) : bool :=
  match e with CodeCount _ _ => true | _ => false end.

Definition is_callback (e : event) : bool :=
  match e with ResponseGotCall _ => true | _ => false end.

Definition is_cache_store (e : event) : bool :=
  match e with CacheStore => true | _ => false end.

(** The calls made before the outbound request is built: logging and request
    adaptation. *)
Definition is_setup (e : event) : bool := is_log e || is_adapt_request e.

Definition is_cache_call (e : event) : bool :=
  match e with CacheLoad _ | CacheStore => true | _ => false end.

Definition is_new_request (e : event) : bool :=
  match e with NewRequestCall _ _ => true | _ => false end.

(** The calls [forwardWithResponse] can make. *)
Definition is_forward_call (e : event) : bool :=
  is_setup e || is_new_request e || is_client_call e || is_code_count e
  || is_callback e.

(** How often a kind of call occurs in a trace. *)
Definition calls (kind : event → bool) (tr : list event) : nat :=
  length (List.filter kind tr).

(** A method of the dispatcher runs on the dispatcher, the request context
    it was handed, and the trace of calls made so far. *)
Record State := {
  st_backend : HTTPBackend;
  st_ctx : HTTPContext;
  st_trace : list event;
}.

Definition M (A : Type) : Type := State → outcome A * State.

Definition m_ret {A} (a : A) : M A := λ st, (Ret a, st).

Definition m_bind {A B} (m : M A) (k : A → M B) : M B :=
  λ st, match m st with
        | (Ret a, st') => k a st'
        | (Panic p, st') => (Panic p, st')
        end.

Notation "'let*' x ':=' m 'in' k" := (m_bind m (λ x, k))
  (at level 10, x pattern, m at level 100, k at level 200, only parsing).

Definition lift {A} (o : outcome A) : M A := λ st, (o, st).

Definition get_backend : M HTTPBackend := λ st, (Ret (st_backend st), st).

Definition put_backend (b : HTTPBackend) : M unit :=
  λ st, (Ret tt, {| st_backend := b; st_ctx := st_ctx st; st_trace := st_trace st |}).

Definition get_ctx : M HTTPContext := λ st, (Ret (st_ctx st), st).

Definition update_ctx (f : HTTPContext → HTTPContext) : M unit :=
  λ st, (Ret tt, {| st_backend := st_backend st; st_ctx := f (st_ctx st);
                    st_trace := st_trace st |}).

Definition emit (e : event) : M unit :=
  λ st, (Ret tt, {| st_backend := st_backend st; st_ctx := st_ctx st;
                    st_trace := st_trace st ++ [e] |}).

(** Dereferencing a pointer that may be [nil]. *)
Definition deref {A} (p : option A) : M A :=
  match p with
  | Some a => m_ret a
  | None => lift (Panic NilDereference)
  end.

(** [defer d] before [m]: [d] runs when [m] is left, by return or by panic. *)
Definition defer {A} (d : M unit) (m : M A) : M A :=
  λ st, let '(r, st') := m st in (r, (d st').2).

Variable sz : int_size.
Variable env : Env.

(** *** Load-balancing policies *)

Definition roundRobin : M (Z * Server) :=
  let* b := get_backend in
  let cnt := wrap_uint64 (count b + 1) in
  let* _ := put_backend (set_count b cnt) in
  let* i := lift (go_rem (to_int sz cnt) (len (servers b))) in
  lift (slice_at (servers b) i).

Definition random : M (Z * Server) :=
  let* b := get_backend in
  let* i := lift (rand_Intn env (len (servers b))) in
  lift (slice_at (servers b) i).

Definition ipHash : M (Z * Server) :=
  let* b := get_backend in
  let* ctx := get_ctx in
  let sum32 := to_int sz (hash32Once (RealIP (Request ctx))) in
  let* i := lift (go_rem sum32 (len (servers b))) in
  lift (slice_at (servers b) i).

Definition headerHash : M (Z * Server) :=
  let* b := get_backend in
  let* ctx := get_ctx in
  let* lb := deref (spec_LoadBalance (spec b)) in
  let value := Header_Get (Header (Request ctx)) (HeaderHashKey lb) in
  let sum32 := to_int sz (hash32Once value) in
  let* i := lift (go_rem sum32 (len (servers b))) in
  lift (slice_at (servers b) i).

Definition nextServer : M (Z * Server) :=
  let* b := get_backend in
  let* lb := deref (spec_LoadBalance (spec b)) in
  if String.eqb (Policy lb) policyRoundRobin then roundRobin
  else if String.eqb (Policy lb) policyRandom then random
  else if String.eqb (Policy lb) policyIPHash then ipHash
  else if String.eqb (Policy lb) policyHeaderHash then headerHash
  else
    let* _ := emit (LogError ("BUG: unknown load balance policy: " +:+ Policy lb)) in
    roundRobin.

(** The dispatcher after [k] consecutive round-robin selections, the
    outcome of the [i]-th selection (counted from 1), and the index a
    selection returned, if it returned. *)
Definition after_selections (k : N) (st : State) : State :=
  N.iter k (λ s, (roundRobin s).2) st.

Definition nth_selection (i : Z) (st : State) : outcome (Z * Server) :=
  (roundRobin (after_selections (Z.to_N (i - 1)) st)).1.


(** *** Adaptation *)

Definition adaptRequest (headerInPlace : bool) : M (string * string * HTTPHeader) :=
  let* b := get_backend in
  let* ctx := get_ctx in
  let r := Request ctx in
  match adaptor b with
  | Some a =>
      let* _ := emit (AdaptRequestCall headerInPlace) in
      let* _ := update_ctx (λ c, (AdaptRequest a c headerInPlace).2) in
      m_ret (AdaptRequest a ctx headerInPlace).1
  | None => m_ret (Method r, Path r, Header r)
  end.

Definition adaptResponse : M unit :=
  let* b := get_backend in
  match adaptor b with
  | Some a =>
      let* _ := emit AdaptResponseCall in
      update_ctx (AdaptResponse a)
  | None => m_ret tt
  end.

(** *** Dispatch with a response *)

(** The loop over [b.responseGotFuncs], in registration order. *)
Fixpoint callResponseGotFuncs (i : nat) (fns : list ResponseGotFunc) : M unit :=
  match fns with
  | [] => m_ret tt
  | fn :: rest =>
      let* _ := emit (ResponseGotCall i) in
      let* _ := update_ctx fn in
      callResponseGotFuncs (S i) rest
  end.

(** [HandleWithResponse] below the cache check: from the selection of a
    server to the registration of the finish hook. *)
Definition forwardWithResponse : M unit :=
  let* server := nextServer in
  let* _ := update_ctx (AddTag ("backendAddr:" +:+ URL server.2)) in
  let* (method, path, header) := adaptRequest true in
  let url := URL server.2 +:+ path in
  let* ctx := get_ctx in
  let* _ := emit (NewRequestCall method url) in
  match NewRequest_err env method url with
  | Some err =>
      let* _ := emit (LogError ("BUG: new request failed: " +:+ err)) in
      let* _ := update_ctx (SetStatusCode StatusInternalServerError) in
      update_ctx (AddTag ("backendBug:" +:+ err))
  | None =>
      let req := {| out_method := method; out_url := url;
                    out_header := header; out_body := Body (Request ctx) |} in
      let* _ := emit (ClientDoCall req) in
      match client_Do env req with
      | inl err =>
          let* _ := update_ctx (SetStatusCode StatusServiceUnavailable) in
          update_ctx (AddTag ("backendErr:" +:+ err))
      | inr resp =>
          let* b := get_backend in
          let* _ := emit (CodeCount (URL server.2) (br_StatusCode resp)) in
          let* _ := put_backend
                      (set_codes b (codeCounter_count (codes b) server.2
                                      (br_StatusCode resp))) in
          let* _ := update_ctx (SetStatusCode (br_StatusCode resp)) in
          let* _ := update_ctx (AddTag ("backendCode:" +:+ pretty (br_StatusCode resp))) in
          let* _ := update_ctx (AddRespHeaderFromStd (br_Header resp)) in
          let* _ := update_ctx (SetBody (br_Body resp)) in
          let* b' := get_backend in
          let* _ := callResponseGotFuncs 0 (responseGotFuncs b') in
          update_ctx (OnFinish TagBackendDuration)
      end
  end.

Definition HandleWithResponse : M unit :=
  let* b := get_backend in
  match memoryCache b with
  | Some mc =>
      let* ctx := get_ctx in
      let* _ := emit (CacheLoad (Load mc ctx).1) in
      let* _ := update_ctx (λ c, (Load mc c).2) in
      if (Load mc ctx).1 then m_ret tt
      else defer (emit CacheStore) forwardWithResponse
  | None => forwardWithResponse
  end.

(** The four ways [forwardWithResponse] leaves a state [st], each with what
    it has added to the trace and done to the response and the counter. *)
Inductive forward_end (st : State) (r : outcome unit * State) : Prop :=
| selection_panicked (p : panic) (logs : list event) :
    r.1 = Panic p →
    st_trace r.2 = st_trace st ++ logs →
    Forall (λ e, is_setup e = true) logs →
    codes (st_backend r.2) = codes (st_backend st) →
    forward_end st r
| request_not_built (pre : list event) (method url err : string) :
    r.1 = Ret tt →
    st_trace r.2 = st_trace st ++ pre ++
      [NewRequestCall method url; LogError ("BUG: new request failed: " +:+ err)] →
    Forall (λ e, is_setup e = true) pre →
    NewRequest_err env method url = Some err →
    StatusCode (Response (st_ctx r.2)) = StatusInternalServerError →
    last (CtxTags (st_ctx r.2)) = Some ("backendBug:" +:+ err) →
    codes (st_backend r.2) = codes (st_backend st) →
    forward_end st r
| transport_failed (pre : list event) (req : OutboundRequest) (err : string) :
    r.1 = Ret tt →
    st_trace r.2 = st_trace st ++ pre ++
      [NewRequestCall (out_method req) (out_url req); ClientDoCall req] →
    Forall (λ e, is_setup e = true) pre →
    client_Do env req = inl err →
    StatusCode (Response (st_ctx r.2)) = StatusServiceUnavailable →
    last (CtxTags (st_ctx r.2)) = Some ("backendErr:" +:+ err) →
    codes (st_backend r.2) = codes (st_backend st) →
    forward_end st r
| response_got (pre cbs : list event) (req : OutboundRequest)
    (resp : BackendResponse) (server : Server) :
    r.1 = Ret tt →
    st_trace r.2 = st_trace st ++ pre ++
      [NewRequestCall (out_method req) (out_url req); ClientDoCall req;
       CodeCount (URL server) (br_StatusCode resp)] ++ cbs →
    Forall (λ e, is_setup e = true) pre →
    Forall (λ e, is_callback e = true) cbs →
    client_Do env req = inr resp →
    codes (st_backend r.2)
      = codeCounter_count (codes (st_backend st)) server (br_StatusCode resp) →
    last (FinishFuncs (st_ctx r.2)) = Some TagBackendDuration →
    forward_end st r.

(** *** Dispatch without a response (mirror) *)

Definition HandleWithoutResponse : M unit :=
  let* server := nextServer in
  let* _ := update_ctx (AddTag ("mirrorBackendAddr:" +:+ URL server.2)) in
  let* (method, path, header) := adaptRequest false in
  let url := URL server.2 +:+ path in
  let* ctx := get_ctx in
  let* _ := emit (NewRequestCall method url) in
  match NewRequest_err env method url with
  | Some err => emit (LogError ("BUG: new request failed: " +:+ err))
  | None =>
      let req := {| out_method := method; out_url := url;
                    out_header := header; out_body := Body (Request ctx) |} in
      let* _ := emit (ClientDoCall req) in
      match client_Do env req with
      | inl err => update_ctx (AddTag ("mirrorBackendFailed:" +:+ err))
      | inr resp =>
          let* b := get_backend in
          let* _ := emit (CodeCount (URL server.2) (br_StatusCode resp)) in
          let* _ := put_backend
                      (set_codes b (codeCounter_count (codes b) server.2
                                      (br_StatusCode resp))) in
          emit DrainBody
      end
  end.

(** *** Construction *)

Variable httpadaptor_New : AdaptorSpec → HTTPAdaptor.
Variable memorycache_New : CacheSpec → MemoryCache.

Definition New (s : Spec) : HTTPBackend :=
  let adaptor :=
    match spec_Adaptor s with
    | Some a => Some (httpadaptor_New a)
    | None => None
    end in
  let memoryCache :=
    match spec_MemoryCache s with
    | Some c => Some (memorycache_New c)
    | None => None
    end in
  let servers := pickServers s in
  {| spec := s; servers := servers; codes := newCodeCounter servers;
     responseGotFuncs := []; count := 0;
     adaptor := adaptor; memoryCache := memoryCache |}.

(** A dispatcher at the start of a call: the context it is handed, and no
    collaborator called yet. *)
Definition enter (b : HTTPBackend) (ctx : HTTPContext) : State :=
  {| st_backend := b; st_ctx := ctx; st_trace := [] |}.

(** What a dispatch that got past the cache leaves behind, path by path:
    the selection panicked; the request could not be built; the client
    failed; the client answered. [ctx0] is the context at the selection,
    [hd] and [tl] are the cache calls around the forwarding, [pre] the
    logging and request adaptation before the request is built. *)
Definition forwarded (b : HTTPBackend) (ctx0 : HTTPContext)
    (r : outcome unit * State) : Prop :=
  ∃ hd tl pre c,
    Forall (λ e, is_cache_call e = true) hd
    ∧ Forall (λ e, is_cache_call e = true) tl
    ∧ Forall (λ e, is_setup e = true) pre
    ∧ ((∃ p, r = (Panic p, {| st_backend := set_count b c; st_ctx := ctx0;
                              st_trace := hd ++ pre ++ tl |}))
       ∨ ∃ server m pth h ctx2,
           server ∈ servers b
           ∧ (adaptor b = None →
              ctx2 = AddTag ("backendAddr:" +:+ URL server) ctx0
              ∧ m = Method (Request ctx0) ∧ pth = Path (Request ctx0)
              ∧ h = Header (Request ctx0))
           ∧ r =
             let url := URL server +:+ pth in
             let req := {| out_method := m; out_url := url; out_header := h;
                           out_body := Body (Request ctx2) |} in
             match NewRequest_err env m url with
             | Some err =>
                 (Ret tt,
                  {| st_backend := set_count b c;
                     st_ctx := AddTag ("backendBug:" +:+ err)
                                 (SetStatusCode StatusInternalServerError ctx2);
                     st_trace := hd ++ pre ++
                       [NewRequestCall m url;
                        LogError ("BUG: new request failed: " +:+ err)] ++ tl |})
             | None =>
                 match client_Do env req with
                 | inl err =>
                     (Ret tt,
                      {| st_backend := set_count b c;
                         st_ctx := AddTag ("backendErr:" +:+ err)
                                     (SetStatusCode StatusServiceUnavailable ctx2);
                         st_trace := hd ++ pre ++
                           [NewRequestCall m url; ClientDoCall req] ++ tl |})
                 | inr resp =>
                     (Ret tt,
                      {| st_backend :=
                           set_codes (set_count b c)
                             (codeCounter_count (codes b) server
                                (br_StatusCode resp));
                         st_ctx :=
                           OnFinish TagBackendDuration
                             (foldl (λ c fn, fn c)
                                (SetBody (br_Body resp)
                                   (AddRespHeaderFromStd (br_Header resp)
                                      (AddTag ("backendCode:" +:+
                                               pretty (br_StatusCode resp))
                                         (SetStatusCode (br_StatusCode resp) ctx2))))
                                (responseGotFuncs b));
                         st_trace := hd ++ pre ++
                           [NewRequestCall m url; ClientDoCall req;
                            CodeCount (URL server) (br_StatusCode resp)] ++
                           (ResponseGotCall <$>
                              seq 0 (length (responseGotFuncs b))) ++ tl |})
                 end
             end).

End Backend.

(** * The validation recorder (package [v])

    The caller of the two [Validate] methods above: it walks a
    configuration value by reflection and records what each validator
    reports. A struct field is seen through its name and its tag lookup
    ([reflect.StructTag.Get], which yields the empty string for a key the
    tag does not have). *)

(** [strings.Split(s, sep)] for a one-byte separator: the substrings between
    the separators; a string without separator, the empty one included,
    yields itself as the only element. *)
Fixpoint Split (s : string) (sep : Ascii.ascii) : list string :=
  match s with
  | EmptyString => [EmptyString]
  | String c rest =>
      if Ascii.eqb c sep then EmptyString :: Split rest sep
      else match Split rest sep with
           | piece :: pieces => String c piece :: pieces
           | [] => [String c EmptyString]
           end
  end.

(** Whether a byte occurs in a string. *)
Fixpoint has_byte (c : Ascii.ascii) (s : string) : bool :=
  match s with
  | EmptyString => false
  | String a rest => Ascii.eqb a c || has_byte c rest
  end.

Record StructField := {
  Name : string;
  Tag : string → string;
}.

(** The byte [0x2C]. *)
Definition comma : Ascii.ascii := Eval cbv in Ascii.ascii_of_nat 44.

Definition getFieldYAMLName (field : StructField) : string :=
  let fieldName := Name field in
  let fieldNames := Split (Tag field "yaml") comma in
  if 0 <? len fieldNames then
    match fieldNames with
    | first :: _ => first
    | [] => fieldName
    end
  else fieldName.

Definition requiredFromField (field : StructField) : bool :=
  let tags := Split (Tag field "jsonschema") comma in
  if len tags =? 0 then false
  else if match tags with
          | first :: _ => String.eqb first "-"
          | [] => false
          end
  then false
  else if existsb (λ tag, String.eqb tag "omitempty") tags then false
  else true.

Record ValidateRecorder := {
  JSONSchemaErrs : list string;
  FormatErrs : list string;
  GeneralErrs : list string;
  SystemErr : string;
}.

(** [recordSystem]: a [nil] error leaves the recorder alone. *)
Definition recordSystem (vr : ValidateRecorder) (err : option string)
  : ValidateRecorder :=
  match err with
  | Some text =>
      {| JSONSchemaErrs := JSONSchemaErrs vr; FormatErrs := FormatErrs vr;
         GeneralErrs := GeneralErrs vr; SystemErr := text |}
  | None => vr
  end.

(** A value that implements [Validator]: the name of its type, and what its
    [Validate] does, which is to return an error or [nil], or to panic with
    a value printed as the given text. *)
Inductive validated :=
| Returned (err : option string)
| Panicked (value : string).

Record Validator := {
  v_type : string;
  Validate : validated;
}.

(** [recordGeneral], on the name of the value's type, the field it sits in
    (if any) and the value seen as a [Validator] (if it is one). The lines
    it logs on a panic are left out; the recorder is what it leaves. *)
Definition recordGeneral (vr : ValidateRecorder) (typeName : string)
    (field : option StructField) (v : option Validator) : ValidateRecorder :=
  let fieldName :=
    match field with
    | Some f => getFieldYAMLName f
    | None => typeName
    end in
  match v with
  | None => vr
  | Some v =>
      match Validate v with
      | Panicked value =>
          recordSystem vr
            (Some ("BUG: call Validate for " +:+ v_type v +:+ " panic: " +:+ value))
      | Returned (Some err) =>
          {| JSONSchemaErrs := JSONSchemaErrs vr; FormatErrs := FormatErrs vr;
             GeneralErrs := GeneralErrs vr ++ [fieldName +:+ ": " +:+ err];
             SystemErr := SystemErr vr |}
      | Returned None => vr
      end
  end.


(** The backend's spec and its load-balance section as validators. *)
Definition Spec_Validator {AdaptorSpec CacheSpec : Type}
    (s : @Spec AdaptorSpec CacheSpec) : Validator :=
  {| v_type := "httpbackend.Spec"; Validate := Returned (Spec_Validate s) |}.

Definition LoadBalance_Validator (lb : LoadBalance) : Validator :=
  {| v_type := "httpbackend.LoadBalance";
     Validate := Returned (LoadBalance_Validate lb) |}.

(** ** A small deployment

    The scenario of the design document: servers A and B tagged [v1], server
    C tagged [v2], and the filter [v1]. *)

Definition serverA : Server := {| URL := "http://a"; Tags := ["v1"%string] |}.
Definition serverB : Server := {| URL := "http://b"; Tags := ["v1"%string] |}.
Definition serverC : Server := {| URL := "http://c"; Tags := ["v2"%string] |}.

Definition demoSpec (tags : list string) (policy : string) : @Spec unit unit :=
  {| ServersTags := tags;
     Servers := [serverA; serverB; serverC];
     spec_LoadBalance := Some {| Policy := policy; HeaderHashKey := "X-Key" |};
     spec_Adaptor := None;
     spec_MemoryCache := None |}.

Definition demoRequest (h : HTTPHeader) : HTTPRequest :=
  {| Method := "GET"; Path := "/"; Header := h; RealIP := "10.0.0.1"; Body := "" |}.

Definition demoCtx (h : HTTPHeader) : HTTPContext :=
  {| Request := demoRequest h;
     Response := {| StatusCode := 200; RespHeader := ∅; RespBody := "" |};
     CtxTags := [];
     FinishFuncs := [] |}.

Definition idAdaptor : HTTPAdaptor :=
  {| AdaptRequest := λ ctx _, ((Method (Request ctx), Path (Request ctx),
                               Header (Request ctx)), ctx);
     AdaptResponse := λ ctx, ctx |}.

Definition missCache : MemoryCache :=
  {| Load := λ ctx, (false, ctx) |}.

Definition hitCache : MemoryCache :=
  {| Load := λ ctx, (true, ctx) |}.

Definition demoNew (s : @Spec unit unit) : HTTPBackend :=
  New (λ _, idAdaptor) (λ _, missCache) s.

(** A shared client that answers every request with a 200, and one that
    fails every request. *)
Definition okEnv : Env :=
  {| rand_draw := λ _, 0;
     NewRequest_err := λ _ _, None;
     client_Do := λ _, inr {| br_StatusCode := 200; br_Header := ∅; br_Body := "ok" |} |}.

Definition downEnv : Env :=
  {| rand_draw := λ _, 0;
     NewRequest_err := λ _ _, None;
     client_Do := λ _, inl "connection refused"%string |}.

(** A standard library that rejects every method and URL. *)
Definition bugEnv : Env :=
  {| rand_draw := λ _, 0;
     NewRequest_err := λ _ _, Some "invalid method"%string;
     client_Do := λ _, inl "unreachable"%string |}.

(** The answer of [okEnv]'s client. *)
Definition okResponse : BackendResponse :=
  {| br_StatusCode := 200; br_Header := ∅; br_Body := "ok" |}.

(** The same deployment with an adaptor and a cache configured. *)
Definition fullSpec : @Spec unit unit :=
  {| ServersTags := ["v1"%string];
     Servers := [serverA; serverB; serverC];
     spec_LoadBalance := Some {| Policy := policyRoundRobin; HeaderHashKey := "" |};
     spec_Adaptor := Some tt;
     spec_MemoryCache := Some tt |}.

Definition fullBackend (cache : MemoryCache) : HTTPBackend :=
  New (λ _, idAdaptor) (λ _, cache) fullSpec.

(** A cache in front of an empty pool. *)
Definition cachedEmptyBackend : HTTPBackend :=
  New (λ _, idAdaptor) (λ _, missCache)
    ({| ServersTags := ["v3"%string];
        Servers := [serverA; serverB; serverC];
        spec_LoadBalance := spec_LoadBalance fullSpec;
        spec_Adaptor := None;
        spec_MemoryCache := Some tt |} : @Spec unit unit).

(** The request the dispatcher builds for the demo request when round-robin
    has selected server B. *)
Definition demoOutbound : OutboundRequest :=
  {| out_method := "GET"; out_url := "http://b/"; out_header := ∅; out_body := "" |}.

(** The pool [A; B] behind the filter [v1], all three servers behind no
    filter, and the empty pool behind a filter no server satisfies. *)
Definition demoBackend : HTTPBackend :=
  demoNew (demoSpec ["v1"%string] policyRoundRobin).

Definition demoBackend3 : HTTPBackend :=
  demoNew (demoSpec [] policyRoundRobin).

Definition emptyBackend (policy : string) : HTTPBackend :=
  demoNew (demoSpec ["v3"%string] policy).

(** * Properties *)

(** ** The server pool *)

Section Pool.

Context {AdaptorSpec CacheSpec : Type}.
Implicit Types (s : @Spec AdaptorSpec CacheSpec) (srv : Server).

Lemma len_zero {A} (l : list A) : (len l =? 0) = true ↔ l = [].
Proof.
  unfold len. rewrite Z.eqb_eq. destruct l; simpl; split; intros; try done; lia.
Qed.

Lemma StrInSlice_elem (t : string) (ss : list string) :
  StrInSlice t ss = true ↔ t ∈ ss.
Proof.
  unfold StrInSlice. rewrite existsb_exists. split.
  - intros (x & Hin & Heq). apply String.eqb_eq in Heq. subst.
    by apply list_elem_of_In.
  - intros Hin. exists t. split; [by apply list_elem_of_In | apply String.eqb_refl].
Qed.

Lemma allFound_subseteq (tags : list string) srv :
  allFound tags srv = true ↔ tags ⊆ Tags srv.
Proof.
  induction tags as [|t tags IH]; simpl.
  - split; [intros _ x Hx; inversion Hx | done].
  - destruct (StrInSlice t (Tags srv)) eqn:Ht; simpl.
    + rewrite IH. apply StrInSlice_elem in Ht. split.
      * intros Hsub x Hx. apply elem_of_cons in Hx as [->|Hx]; auto.
      * intros Hsub x Hx. apply Hsub. by right.
    + split; [done|]. intros Hsub.
      assert (t ∈ Tags srv) as Hin by (apply Hsub; left).
      apply StrInSlice_elem in Hin. congruence.
Qed.

Lemma serverHasTag_false (ss : list Server) :
  serverHasTag ss = false ↔ ∀ srv, srv ∈ ss → Tags srv = [].
Proof.
  induction ss as [|x ss IH]; simpl.
  - split; [intros _ srv Hin; inversion Hin | done].
  - destruct (len (Tags x) =? 0) eqn:Hlen; simpl.
    + apply len_zero in Hlen. rewrite IH. split.
      * intros Hall srv Hin. apply elem_of_cons in Hin as [->|Hin]; auto.
      * intros Hall srv Hin. apply Hall. by right.
    + split; [done|]. intros Hall.
      assert (Tags x = []) as Hx by (apply Hall; left).
      apply len_zero in Hx. congruence.
Qed.

Lemma pickLoop_filter (tags : list string) (ss acc : list Server) :
  pickLoop tags ss acc = acc ++ filter (λ srv, tags ⊆ Tags srv) ss.
Proof.
  revert acc. induction ss as [|x ss IH]; intros acc; simpl.
  - by rewrite app_nil_r.
  - destruct (allFound tags x) eqn:Hx.
    + apply allFound_subseteq in Hx. rewrite IH, filter_cons_True by done.
      by rewrite <- app_assoc.
    + rewrite IH, filter_cons_False; [done|].
      intros Hsub. apply allFound_subseteq in Hsub. congruence.
Qed.

(** Whatever branch is taken, the pool is the configured list filtered by
    the subset test, in the configured order. *)
Lemma pickServers_filter s :
  pickServers s = filter (λ srv, ServersTags s ⊆ Tags srv) (Servers s).
Proof.
  unfold pickServers.
  destruct (len (ServersTags s) =? 0) eqn:Hlen; simpl.
  - destruct (serverHasTag (Servers s)) eqn:Htag; simpl.
    + by rewrite pickLoop_filter.
    + apply len_zero in Hlen. rewrite Hlen.
      clear. induction (Servers s) as [|x l IH]; [done|].
      rewrite filter_cons_True; [by rewrite <- IH|].
      intros t Ht. inversion Ht.
  - by rewrite pickLoop_filter.
Qed.

(** C3. [pickServers]: when the tag filter is empty and no configured server
    carries a tag, the pool is the whole configured list; otherwise a server
    is in the pool exactly when it is configured and its tags contain every
    tag of the filter; and the pool is always a subsequence of the
    configured list, in the same relative order. *)
Theorem pickServers_pool s :
  (ServersTags s = [] ∧ (∀ srv, srv ∈ Servers s → Tags srv = []) →
   pickServers s = Servers s)
  ∧ (¬ (ServersTags s = [] ∧ (∀ srv, srv ∈ Servers s → Tags srv = [])) →
     ∀ srv, srv ∈ pickServers s ↔
            srv ∈ Servers s ∧ (∀ t, t ∈ ServersTags s → t ∈ Tags srv))
  ∧ pickServers s `sublist_of` Servers s.
Proof.
  split; [|split].
  - intros [Htags Hnone]. unfold pickServers.
    apply len_zero in Htags. apply serverHasTag_false in Hnone.
    by rewrite Htags, Hnone.
  - intros _ srv. rewrite pickServers_filter, list_elem_of_filter.
    split; intros [? ?]; split; auto.
  - rewrite pickServers_filter. apply sublist_filter.
Qed.

Lemma Spec_Validate_rejects s :
  is_Some (Spec_Validate s) ↔ pickServers s = [].
Proof.
  unfold Spec_Validate.
  destruct (len (pickServers s) =? 0) eqn:Hlen.
  - apply len_zero in Hlen. split; intros; try done; by eexists.
  - split; [intros [? ?]; done|].
    intros Hnil. apply len_zero in Hnil. congruence.
Qed.

(** C4. [Spec.Validate] returns an error exactly when the tag filter picks
    no server, and no error exactly when it picks at least one. *)
Theorem Spec_Validate_error_iff s :
  (is_Some (Spec_Validate s) ↔ pickServers s = [])
  ∧ (Spec_Validate s = None ↔ pickServers s ≠ []).
Proof.
  split; [apply Spec_Validate_rejects|].
  split.
  - intros Hok Hnil. apply Spec_Validate_rejects in Hnil as [err Herr].
    congruence.
  - intros Hne. destruct (Spec_Validate s) as [err|] eqn:Hv; [|done].
    destruct Hne. apply Spec_Validate_rejects. by exists err.
Qed.

(** C9. [LoadBalance.Validate] returns an error exactly when the policy is
    [headerHash] and the header key is the empty string; any other policy
    passes, whatever the header key. *)
Theorem LoadBalance_Validate_error_iff (lb : LoadBalance) :
  (is_Some (LoadBalance_Validate lb) ↔
   Policy lb = policyHeaderHash ∧ HeaderHashKey lb = ""%string)
  ∧ (Policy lb ≠ policyHeaderHash → LoadBalance_Validate lb = None).
Proof.
  unfold LoadBalance_Validate, len_string.
  destruct (String.eqb_spec (Policy lb) policyHeaderHash) as [Hp|Hp]; simpl.
  - destruct (HeaderHashKey lb) as [|c k] eqn:Hk; simpl.
    + split; [|done]. split; intros; try done; by eexists.
    + split; [|done]. split; [intros [? ?]; done | intros [_ ?]; done].
  - split; [|done]. split; [intros [? ?]; done | intros [? _]; done].
Qed.

End Pool.

(** ** Round-robin selection *)

Section Selection.

Context {AdaptorSpec CacheSpec : Type}.
Implicit Types (st : @State AdaptorSpec CacheSpec)
  (b : @HTTPBackend AdaptorSpec CacheSpec).

Lemma to_int_small sz z : 0 ≤ z < 2 ^ (int_bits sz - 1) → to_int sz z = z.
Proof.
  intros Hz. unfold to_int.
  assert (2 ^ int_bits sz = 2 * 2 ^ (int_bits sz - 1)) as Hpow
    by (destruct sz; reflexivity).
  rewrite Hpow, Z.mod_small by lia.
  replace (2 * 2 ^ (int_bits sz - 1) / 2) with (2 ^ (int_bits sz - 1))
    by (destruct sz; reflexivity).
  destruct (Z.ltb_spec z (2 ^ (int_bits sz - 1))); [done | lia].
Qed.

Lemma int_bits_le sz : 2 ^ (int_bits sz - 1) ≤ 2 ^ 63.
Proof. destruct sz; simpl; lia. Qed.

(** One selection, spelled out: the counter is incremented first, whatever
    happens next. *)
Lemma roundRobin_run sz st :
  roundRobin sz st =
  (match go_rem (to_int sz (wrap_uint64 (count (st_backend st) + 1)))
           (len (servers (st_backend st))) with
   | Ret i => slice_at (servers (st_backend st)) i
   | Panic p => Panic p
   end,
   {| st_backend := set_count (st_backend st)
                      (wrap_uint64 (count (st_backend st) + 1));
      st_ctx := st_ctx st; st_trace := st_trace st |}).
Proof.
  unfold roundRobin, m_bind, get_backend, put_backend, lift. simpl.
  by destruct (go_rem _ _).
Qed.

Lemma roundRobin_count sz st :
  count (st_backend (roundRobin sz st).2) = wrap_uint64 (count (st_backend st) + 1)
  ∧ servers (st_backend (roundRobin sz st).2) = servers (st_backend st).
Proof. by rewrite roundRobin_run. Qed.

(** After [k] selections the counter holds [k] more, modulo [2^64]; the
    pool is untouched. *)
Lemma after_selections_count sz (k : N) st :
  0 ≤ count (st_backend st) < 2 ^ 64 →
  count (st_backend (after_selections sz k st))
    = wrap_uint64 (count (st_backend st) + Z.of_N k)
  ∧ servers (st_backend (after_selections sz k st)) = servers (st_backend st).
Proof.
  intros Hc. unfold after_selections.
  induction k as [|k [IHc IHs]] using N.peano_ind.
  - simpl. unfold wrap_uint64. by rewrite Z.add_0_r, Z.mod_small.
  - rewrite N.iter_succ.
    destruct (roundRobin_count sz
                (N.iter k (λ s, (roundRobin sz s).2) st)) as [Hc' Hs'].
    rewrite Hc', Hs', IHc, IHs. split; [|done].
    unfold wrap_uint64. rewrite Z.add_mod_idemp_l by done.
    f_equal. lia.
Qed.

(** A selection made while the incremented counter is still a non-negative
    [int] returns the counter modulo the pool size. *)
Lemma roundRobin_in_range sz st :
  servers (st_backend st) ≠ [] →
  0 ≤ count (st_backend st) →
  count (st_backend st) + 1 < 2 ^ (int_bits sz - 1) →
  let n := len (servers (st_backend st)) in
  let c := count (st_backend st) + 1 in
  ∃ srv, (roundRobin sz st).1 = Ret (c mod n, srv)
         ∧ servers (st_backend st) !! Z.to_nat (c mod n) = Some srv.
Proof.
  intros Hne H0 Hlt n c. rewrite roundRobin_run. simpl.
  pose proof (int_bits_le sz) as Hbits.
  assert (0 < n) as Hn.
  { unfold n, len. destruct (servers (st_backend st)); [done | simpl; lia]. }
  unfold wrap_uint64. rewrite Z.mod_small by lia.
  rewrite to_int_small by lia. unfold go_rem. fold n c.
  destruct (Z.eqb_spec n 0) as [|_]; [lia|].
  rewrite Z.rem_mod_nonneg by lia.
  pose proof (Z.mod_pos_bound c n Hn) as Hmod.
  unfold slice_at. destruct (Z.ltb_spec (c mod n) 0) as [|_]; [lia|].
  destruct (lookup_lt_is_Some_2 (servers (st_backend st)) (Z.to_nat (c mod n)))
    as [srv Hsrv].
  { unfold n, len in *. lia. }
  exists srv. by rewrite Hsrv.
Qed.



(** Every policy ends in an indexing of the pool, so what a selection
    returns is an element of the pool at an index inside it. *)
Lemma slice_at_Ret {A} (l : list A) (i j : Z) (a : A) :
  slice_at l i = Ret (j, a) → j = i ∧ 0 ≤ i < len l ∧ l !! Z.to_nat i = Some a.
Proof.
  unfold slice_at. destruct (Z.ltb_spec i 0); [done|].
  destruct (l !! Z.to_nat i) as [x|] eqn:Hl; [|done].
  intros [= <- <-]. apply lookup_lt_Some in Hl as Hlt.
  unfold len. repeat split; auto; lia.
Qed.





Lemma roundRobin_Ret sz st i srv :
  (roundRobin sz st).1 = Ret (i, srv) →
  0 ≤ i < len (servers (st_backend st))
  ∧ servers (st_backend st) !! Z.to_nat i = Some srv.
Proof.
  rewrite roundRobin_run. simpl. destruct (go_rem _ _) as [j|]; [|done].
  intros H. by apply slice_at_Ret in H as (-> & ? & ?).
Qed.

Lemma random_Ret env st i srv :
  (random env st).1 = Ret (i, srv) →
  0 ≤ i < len (servers (st_backend st))
  ∧ servers (st_backend st) !! Z.to_nat i = Some srv.
Proof.
  unfold random, m_bind, get_backend, lift. simpl.
  destruct (rand_Intn _ _) as [j|]; [|done].
  intros H. by apply slice_at_Ret in H as (-> & ? & ?).
Qed.

Lemma ipHash_Ret sz st i srv :
  (ipHash sz st).1 = Ret (i, srv) →
  0 ≤ i < len (servers (st_backend st))
  ∧ servers (st_backend st) !! Z.to_nat i = Some srv.
Proof.
  unfold ipHash, m_bind, get_backend, get_ctx, lift. simpl.
  destruct (go_rem _ _) as [j|]; [|done].
  intros H. by apply slice_at_Ret in H as (-> & ? & ?).
Qed.

Lemma headerHash_Ret sz st i srv :
  (headerHash sz st).1 = Ret (i, srv) →
  0 ≤ i < len (servers (st_backend st))
  ∧ servers (st_backend st) !! Z.to_nat i = Some srv.
Proof.
  unfold headerHash, m_bind, get_backend, get_ctx, deref, lift, m_ret. simpl.
  destruct (spec_LoadBalance _); [|done]. simpl.
  destruct (go_rem _ _) as [j|]; [|done].
  intros H. by apply slice_at_Ret in H as (-> & ? & ?).
Qed.

(** [nextServer], one case per arm of the switch. *)
Lemma nextServer_run sz env st :
  nextServer sz env st =
  match spec_LoadBalance (spec (st_backend st)) with
  | None => (Panic NilDereference, st)
  | Some lb =>
      if String.eqb (Policy lb) policyRoundRobin then roundRobin sz st
      else if String.eqb (Policy lb) policyRandom then random env st
      else if String.eqb (Policy lb) policyIPHash then ipHash sz st
      else if String.eqb (Policy lb) policyHeaderHash then headerHash sz st
      else roundRobin sz
             {| st_backend := st_backend st; st_ctx := st_ctx st;
                st_trace := st_trace st ++
                  [LogError ("BUG: unknown load balance policy: " +:+ Policy lb)] |}
  end.
Proof.
  unfold nextServer, m_bind, get_backend, deref, lift, m_ret, emit. simpl.
  destruct (spec_LoadBalance _) as [lb|]; [|done]. simpl.
  by repeat case_match.
Qed.

Lemma nextServer_Ret sz env st i srv :
  (nextServer sz env st).1 = Ret (i, srv) →
  0 ≤ i < len (servers (st_backend st))
  ∧ servers (st_backend st) !! Z.to_nat i = Some srv.
Proof.
  rewrite nextServer_run. destruct (spec_LoadBalance _) as [lb|]; [|done].
  repeat case_match;
    eauto using roundRobin_Ret, random_Ret, ipHash_Ret, headerHash_Ret.
  intros Hret. by apply roundRobin_Ret in Hret.
Qed.


(** C8. With a policy that is none of the four known ones, [nextServer]
    does not fail on that account: it logs the inconsistency and then does
    exactly what [roundRobin] does, returning the same server and leaving
    the same dispatcher behind. *)
Theorem nextServer_unknown_policy sz env st (lb : LoadBalance) :
  spec_LoadBalance (spec (st_backend st)) = Some lb →
  Policy lb ≠ policyRoundRobin →
  Policy lb ≠ policyRandom →
  Policy lb ≠ policyIPHash →
  Policy lb ≠ policyHeaderHash →
  (nextServer sz env st).1 = (roundRobin sz st).1
  ∧ st_backend (nextServer sz env st).2 = st_backend (roundRobin sz st).2
  ∧ st_ctx (nextServer sz env st).2 = st_ctx st
  ∧ st_trace (nextServer sz env st).2 =
      st_trace st ++ [LogError ("BUG: unknown load balance policy: " +:+ Policy lb)].
Proof.
  intros Hlb H1 H2 H3 H4. rewrite nextServer_run, Hlb.
  apply String.eqb_neq in H1, H2, H3, H4. rewrite H1, H2, H3, H4.
  by rewrite !roundRobin_run.
Qed.

(** C7. Header-hash selection on a request without the configured header
    returns what it returns on a request carrying that header with the
    empty string as its value, whatever the pool: in both cases the empty
    string is hashed. *)
Theorem headerHash_missing_header sz b (ctx ctx' : HTTPContext)
    (tr tr' : list event) (lb : LoadBalance) (vs : list string) :
  spec_LoadBalance (spec b) = Some lb →
  Header (Request ctx) !! HeaderHashKey lb = None →
  Header (Request ctx') !! HeaderHashKey lb = Some (""%string :: vs) →
  (headerHash sz {| st_backend := b; st_ctx := ctx; st_trace := tr |}).1
  = (headerHash sz {| st_backend := b; st_ctx := ctx'; st_trace := tr' |}).1
  ∧ Header_Get (Header (Request ctx)) (HeaderHashKey lb) = ""%string.
Proof.
  intros Hlb Hmiss Hempty.
  unfold headerHash, m_bind, get_backend, get_ctx, deref, lift, m_ret. simpl.
  rewrite Hlb. simpl. unfold Header_Get. rewrite Hmiss, Hempty. split; [|done].
  by destruct (go_rem _ _).
Qed.

End Selection.

(** ** Construction *)

Section Construction.

Context {AdaptorSpec CacheSpec : Type}.
Variable mkAdaptor : AdaptorSpec → HTTPAdaptor.
Variable mkCache : CacheSpec → MemoryCache.
Implicit Types (s : @Spec AdaptorSpec CacheSpec).


End Construction.

(** ** The deployment of the design document *)

(** The filter [v1] keeps A and B, in that order. *)
Example demo_pool : servers demoBackend = [serverA; serverB].
Proof. reflexivity. Qed.

(** Round-robin then selects B, A, B, A. *)
Example demo_roundRobin :
  (λ i, nth_selection Int64 i (enter demoBackend (demoCtx ∅))) <$> [1; 2; 3; 4]
  = [Ret (1, serverB); Ret (0, serverA); Ret (1, serverB); Ret (0, serverA)].
Proof. vm_compute. reflexivity. Qed.

(** A filter no server satisfies is rejected by [Spec.Validate], yet [New]
    builds the dispatcher, and its first selection divides by zero. *)
Example demo_empty_pool :
  Spec_Validate (demoSpec ["v3"%string] policyRoundRobin)
    = Some "serversTags picks none of servers"%string
  ∧ (nextServer Int64 okEnv (enter (emptyBackend policyRoundRobin) (demoCtx ∅))).1
    = Panic DivideByZero
  ∧ (nextServer Int64 okEnv (enter (emptyBackend policyRandom) (demoCtx ∅))).1
    = Panic InvalidIntnArgument.
Proof. vm_compute. auto. Qed.



(** The same on a 32-bit platform, at selection number [2^31]. *)
Lemma roundRobin_sequence_int32 :
  nth_selection Int32 (2 ^ 31) (enter demoBackend3 (demoCtx ∅))
  = Panic IndexOutOfRange.
Proof.
  unfold nth_selection.
  destruct (after_selections_count Int32 (Z.to_N (2 ^ 31 - 1))
              (enter demoBackend3 (demoCtx ∅))) as [Hc Hs].
  { change (0 ≤ 0 < 2 ^ 64). lia. }
  rewrite roundRobin_run. cbn [fst]. rewrite Hc, Hs. reflexivity.
Qed.

Lemma nextServer_unknown_policy_witness :
  spec_LoadBalance (demoSpec ["v1"%string] "leastConn")
    = Some {| Policy := "leastConn"; HeaderHashKey := "X-Key" |}
  ∧ (nextServer Int64 okEnv
       (enter (demoNew (demoSpec ["v1"%string] "leastConn")) (demoCtx ∅))).1
    = (roundRobin Int64
         (enter (demoNew (demoSpec ["v1"%string] "leastConn")) (demoCtx ∅))).1.
Proof.
  split; [reflexivity|].
  exact (proj1 (nextServer_unknown_policy Int64 okEnv
                  (enter (demoNew (demoSpec ["v1"%string] "leastConn")) (demoCtx ∅))
                  {| Policy := "leastConn"; HeaderHashKey := "X-Key" |}
                  eq_refl ltac:(discriminate) ltac:(discriminate)
                  ltac:(discriminate) ltac:(discriminate))).
Defined.

(** An unknown policy on the demo pool: the server round-robin picks first. *)
Example demo_unknown_policy :
  (nextServer Int64 okEnv
     (enter (demoNew (demoSpec ["v1"%string] "leastConn")) (demoCtx ∅))).1
  = Ret (1, serverB).
Proof. vm_compute. reflexivity. Qed.

Lemma headerHash_missing_header_witness :
  (∅ : HTTPHeader) !! "X-Key"%string = None
  ∧ ({["X-Key"%string := [""%string]]} : HTTPHeader) !! "X-Key"%string
    = Some [""%string]
  ∧ (headerHash Int64
       (enter (demoNew (demoSpec ["v1"%string] policyHeaderHash)) (demoCtx ∅))).1
    = (headerHash Int64
         (enter (demoNew (demoSpec ["v1"%string] policyHeaderHash))
            (demoCtx {["X-Key"%string := [""%string]]}))).1.
Proof.
  split; [reflexivity|]. split; [vm_compute; reflexivity|].
  exact (proj1 (headerHash_missing_header Int64
                  (demoNew (demoSpec ["v1"%string] policyHeaderHash))
                  (demoCtx ∅) (demoCtx {["X-Key"%string := [""%string]]})
                  [] [] {| Policy := policyHeaderHash; HeaderHashKey := "X-Key" |}
                  [] eq_refl eq_refl ltac:(vm_compute; reflexivity))).
Defined.

(** The published FNV-1a test vectors for "a" and "foobar". *)
Example hash32Once_vectors :
  hash32Once "a" = 0xe40c292c ∧ hash32Once "foobar" = 0xbf9cf968.
Proof. vm_compute. auto. Qed.

(** The empty string hashes to the FNV offset basis, so on the demo pool of
    two servers a request without the header goes to index 1. *)
Example demo_headerHash_missing :
  hash32Once "" = 2166136261
  ∧ (headerHash Int64
       (enter (demoNew (demoSpec ["v1"%string] policyHeaderHash)) (demoCtx ∅))).1
    = Ret (1, serverB).
Proof. vm_compute. auto. Qed.

(** ** Dispatch with a response *)

Section Dispatch.

Context {AdaptorSpec CacheSpec : Type}.
Implicit Types (st : @State AdaptorSpec CacheSpec)
  (b : @HTTPBackend AdaptorSpec CacheSpec).

Lemma state_eta st :
  {| st_backend := st_backend st; st_ctx := st_ctx st; st_trace := st_trace st |} = st.
Proof. by destruct st. Qed.

Lemma random_state env st : (random env st).2 = st.
Proof.
  unfold random, m_bind, get_backend, lift. simpl.
  by destruct (rand_Intn _ _).
Qed.

Lemma ipHash_state sz st : (ipHash sz st).2 = st.
Proof.
  unfold ipHash, m_bind, get_backend, get_ctx, lift. simpl.
  by destruct (go_rem _ _).
Qed.

Lemma headerHash_state sz st : (headerHash sz st).2 = st.
Proof.
  unfold headerHash, m_bind, get_backend, get_ctx, deref, lift, m_ret. simpl.
  destruct (spec_LoadBalance _); [|done]. simpl. by destruct (go_rem _ _).
Qed.

(** A selection touches the round-robin counter and the log, nothing else. *)
Lemma nextServer_effect sz env st :
  st_ctx (nextServer sz env st).2 = st_ctx st
  ∧ codes (st_backend (nextServer sz env st).2) = codes (st_backend st)
  ∧ adaptor (st_backend (nextServer sz env st).2) = adaptor (st_backend st)
  ∧ responseGotFuncs (st_backend (nextServer sz env st).2)
    = responseGotFuncs (st_backend st)
  ∧ ∃ logs, st_trace (nextServer sz env st).2 = st_trace st ++ logs
            ∧ Forall (λ e, is_setup e = true) logs.
Proof.
  rewrite nextServer_run. destruct (spec_LoadBalance _) as [lb|].
  - repeat case_match;
      rewrite ?roundRobin_run, ?random_state, ?ipHash_state, ?headerHash_state;
      simpl; repeat split; try done;
      try (exists []; by rewrite app_nil_r).
    eexists. split; [done|]. by repeat constructor.
  - repeat split; try done. exists []. by rewrite app_nil_r.
Qed.

Lemma adaptRequest_run (inPlace : bool) st :
  adaptRequest inPlace st =
  match adaptor (st_backend st) with
  | Some a =>
      (Ret (AdaptRequest a (st_ctx st) inPlace).1,
       {| st_backend := st_backend st;
          st_ctx := (AdaptRequest a (st_ctx st) inPlace).2;
          st_trace := st_trace st ++ [AdaptRequestCall inPlace] |})
  | None =>
      (Ret (Method (Request (st_ctx st)), Path (Request (st_ctx st)),
            Header (Request (st_ctx st))), st)
  end.
Proof.
  unfold adaptRequest, m_bind, get_backend, get_ctx, emit, update_ctx, m_ret.
  simpl. by destruct (adaptor _).
Qed.

(** The helper the dispatcher has for response adaptation: with an adaptor
    configured it calls [AdaptResponse]. *)
Lemma adaptResponse_run st :
  adaptResponse st =
  match adaptor (st_backend st) with
  | Some a =>
      (Ret tt,
       {| st_backend := st_backend st;
          st_ctx := AdaptResponse a (st_ctx st);
          st_trace := st_trace st ++ [AdaptResponseCall] |})
  | None => (Ret tt, st)
  end.
Proof.
  unfold adaptResponse, m_bind, get_backend, emit, update_ctx, m_ret.
  simpl. by destruct (adaptor _).
Qed.

Lemma callResponseGotFuncs_run (fns : list ResponseGotFunc) (i : nat) st :
  callResponseGotFuncs i fns st =
  (Ret tt,
   {| st_backend := st_backend st;
      st_ctx := foldl (λ c fn, fn c) (st_ctx st) fns;
      st_trace := st_trace st ++ (ResponseGotCall <$> seq i (length fns)) |}).
Proof.
  revert i st. induction fns as [|fn fns IH]; intros i st; simpl.
  - unfold m_ret. by rewrite app_nil_r, state_eta.
  - unfold m_bind, emit, update_ctx. simpl. rewrite IH. simpl.
    by rewrite <- app_assoc.
Qed.

Lemma Forall_setup_snoc (logs : list event) (inPlace : bool) :
  Forall (λ e, is_setup e = true) logs →
  Forall (λ e, is_setup e = true) (logs ++ [AdaptRequestCall inPlace]).
Proof. intros H. apply Forall_app. split; [done|]. by repeat constructor. Qed.

Lemma Forall_callbacks (i n : nat) :
  Forall (λ e, is_callback e = true) (ResponseGotCall <$> seq i n).
Proof. apply Forall_fmap, Forall_forall. done. Qed.

Local Ltac trace_eq H :=
  simpl; rewrite ?H, <- ?app_assoc; simpl; rewrite <- ?app_assoc; done.

Local Ltac side H Hc :=
  unfold update_ctx; simpl;
  first [ by rewrite ?Hc; auto using Forall_setup_snoc, Forall_callbacks, last_snoc
        | trace_eq H ].

(** [forwardWithResponse] always ends in one of the four ways. *)
Lemma forwardWithResponse_ends sz env st :
  forward_end env st (forwardWithResponse sz env st).
Proof.
  unfold forwardWithResponse, m_bind.
  destruct (nextServer_effect sz env st)
    as (Hctx & Hcodes & Had & Hfns & logs & Htr & Hlogs).
  destruct (nextServer sz env st) as [[[i server]|p] st1]; simpl in *.
  - rewrite adaptRequest_run. simpl.
    destruct (adaptor (st_backend st1)) as [a|]; simpl.
    + destruct (AdaptRequest a _ true) as [[[method path] header] ctx2]; simpl.
      destruct (NewRequest_err env method (URL server +:+ path)) as [err|] eqn:HE;
        simpl.
      * apply (request_not_built _ _ _ (logs ++ [AdaptRequestCall true])
                 method (URL server +:+ path) err);
          side Htr Hcodes.
      * match goal with
        | |- context [client_Do env ?r] =>
            set (req := r); destruct (client_Do env req) as [err|resp] eqn:HD
        end; simpl.
        -- apply (transport_failed _ _ _ (logs ++ [AdaptRequestCall true]) req err);
             side Htr Hcodes.
        -- rewrite callResponseGotFuncs_run. simpl.
           apply (response_got _ _ _ (logs ++ [AdaptRequestCall true])
                    (ResponseGotCall <$> seq 0 (length (responseGotFuncs (st_backend st1))))
                    req resp server);
             side Htr Hcodes.
    + destruct (NewRequest_err env _ _) as [err|] eqn:HE; simpl.
      * match goal with
        | HE : NewRequest_err env ?m ?u = Some _ |- _ =>
            apply (request_not_built _ _ _ logs m u err)
        end; side Htr Hcodes.
      * match goal with
        | |- context [client_Do env ?r] =>
            set (req := r); destruct (client_Do env req) as [err|resp] eqn:HD
        end; simpl.
        -- apply (transport_failed _ _ _ logs req err);
             side Htr Hcodes.
        -- rewrite callResponseGotFuncs_run. simpl.
           apply (response_got _ _ _ logs
                    (ResponseGotCall <$> seq 0 (length (responseGotFuncs (st_backend st1))))
                    req resp server);
             side Htr Hcodes.
  - by apply (selection_panicked _ _ _ p logs).
Qed.

Lemma HandleWithResponse_run sz env st :
  HandleWithResponse sz env st =
  match memoryCache (st_backend st) with
  | Some mc =>
      let st1 := {| st_backend := st_backend st;
                    st_ctx := (Load mc (st_ctx st)).2;
                    st_trace := st_trace st ++ [CacheLoad (Load mc (st_ctx st)).1] |} in
      if (Load mc (st_ctx st)).1 then (Ret tt, st1)
      else ((forwardWithResponse sz env st1).1,
            {| st_backend := st_backend (forwardWithResponse sz env st1).2;
               st_ctx := st_ctx (forwardWithResponse sz env st1).2;
               st_trace := st_trace (forwardWithResponse sz env st1).2 ++ [CacheStore] |})
  | None => forwardWithResponse sz env st
  end.
Proof.
  unfold HandleWithResponse, m_bind, get_backend, get_ctx, emit, update_ctx,
    defer, m_ret. simpl.
  destruct (memoryCache _) as [mc|]; [|done]. simpl.
  destruct (Load mc (st_ctx st)).1; [done|].
  by destruct (forwardWithResponse _ _ _).
Qed.

Lemma calls_app (kind : event → bool) (l1 l2 : list event) :
  calls kind (l1 ++ l2) = (calls kind l1 + calls kind l2)%nat.
Proof. unfold calls. by rewrite List.filter_app, length_app. Qed.

Lemma calls_other (kind other : event → bool) (l : list event) :
  (∀ e, other e = true → kind e = false) →
  Forall (λ e, other e = true) l →
  calls kind l = 0%nat.
Proof.
  intros Hdisj Hall. unfold calls.
  induction Hall as [|e l He _ IH]; [done|].
  simpl. by rewrite (Hdisj e He).
Qed.

(** Whatever way it ends, [forwardWithResponse] only adds calls of its own
    kinds to the trace. *)
Lemma forwardWithResponse_calls sz env st :
  ∃ evs, st_trace (forwardWithResponse sz env st).2 = st_trace st ++ evs
         ∧ Forall (λ e, is_forward_call e = true) evs.
Proof.
  assert (∀ l, Forall (λ e, is_setup e = true) l →
               Forall (λ e, is_forward_call e = true) l) as Hsetup.
  { intros l Hl. eapply Forall_impl; [exact Hl|].
    unfold is_forward_call. by intros e ->. }
  assert (∀ l, Forall (λ e, is_callback e = true) l →
               Forall (λ e, is_forward_call e = true) l) as Hcb.
  { intros l Hl. eapply Forall_impl; [exact Hl|].
    unfold is_forward_call. intros e ->. by rewrite !orb_true_r. }
  destruct (forwardWithResponse_ends sz env st)
    as [p logs _ Htr Hl _
       |pre m u err _ Htr Hl _ _ _ _
       |pre req err _ Htr Hl _ _ _ _
       |pre cbs req resp server _ Htr Hl Hc _ _ _];
    eexists; (split; [exact Htr|]); rewrite ?Forall_app;
    repeat split; auto; by repeat constructor.
Qed.

Lemma setup_not_client_call (l : list event) (req : OutboundRequest) :
  Forall (λ e, is_setup e = true) l → ClientDoCall req ∉ l.
Proof.
  intros Hall Hin. by apply (proj1 (Forall_forall _ _) Hall) in Hin.
Qed.

Lemma callback_not_client_call (l : list event) (req : OutboundRequest) :
  Forall (λ e, is_callback e = true) l → ClientDoCall req ∉ l.
Proof.
  intros Hall Hin. by apply (proj1 (Forall_forall _ _) Hall) in Hin.
Qed.

(** The transport-failure path of [forwardWithResponse], recognised by the
    client call in the trace and the client's answer to it. *)
Lemma forwardWithResponse_transport_failure sz env st
    (req : OutboundRequest) (err : string) :
  ClientDoCall req ∈ st_trace (forwardWithResponse sz env st).2 →
  ClientDoCall req ∉ st_trace st →
  client_Do env req = inl err →
  (forwardWithResponse sz env st).1 = Ret tt
  ∧ StatusCode (Response (st_ctx (forwardWithResponse sz env st).2))
    = StatusServiceUnavailable
  ∧ last (CtxTags (st_ctx (forwardWithResponse sz env st).2))
    = Some ("backendErr:" +:+ err)
  ∧ codes (st_backend (forwardWithResponse sz env st).2) = codes (st_backend st)
  ∧ ∃ evs, st_trace (forwardWithResponse sz env st).2 = st_trace st ++ evs
           ∧ calls is_client_call evs = 1%nat
           ∧ calls is_code_count evs = 0%nat.
Proof.
  intros Hin Hfresh Hdown.
  destruct (forwardWithResponse_ends sz env st)
    as [p logs _ Htr Hl _
       |pre m u err' _ Htr Hl _ _ _ _
       |pre req' err' Hret Htr Hl Hdo Hstatus Htag Hcodes
       |pre cbs req' resp server _ Htr Hl Hc Hdo _ _];
    rewrite Htr in Hin; rewrite ?elem_of_app in Hin.
  - destruct Hin as [Hin|Hin]; [done|]. by apply setup_not_client_call in Hin.
  - destruct Hin as [Hin|[Hin|Hin]]; [done| |].
    + by apply setup_not_client_call in Hin.
    + repeat (apply elem_of_cons in Hin as [Hin|Hin]; [done|]). inversion Hin.
  - assert (req' = req) as ->.
    { destruct Hin as [Hin|[Hin|Hin]]; [done| |].
      - by apply setup_not_client_call in Hin.
      - apply elem_of_cons in Hin as [Hin|Hin]; [done|].
        apply elem_of_cons in Hin as [Hin|Hin]; [congruence | inversion Hin]. }
    assert (err' = err) as -> by congruence.
    repeat split; auto. eexists. split; [exact Htr|].
    rewrite !calls_app.
    rewrite (calls_other is_client_call is_setup pre),
      (calls_other is_code_count is_setup pre); auto; by intros [].
  - assert (req' = req) as ->.
    { destruct Hin as [Hin|[Hin|[Hin|Hin]]]; [done| | |].
      - by apply setup_not_client_call in Hin.
      - apply elem_of_cons in Hin as [Hin|Hin]; [done|].
        apply elem_of_cons in Hin as [Hin|Hin]; [congruence|].
        apply elem_of_cons in Hin as [Hin|Hin]; [done | inversion Hin].
      - by apply callback_not_client_call in Hin. }
    congruence.
Qed.

(** C5. When the call through the shared client fails, [HandleWithResponse]
    returns with the response status set to 503 and a tag carrying the
    error text added last; the client was called once (no retry) and the
    code counter was not updated. *)
Theorem HandleWithResponse_transport_failure sz env b (ctx : HTTPContext)
    (req : OutboundRequest) (err : string) :
  ClientDoCall req ∈ st_trace (HandleWithResponse sz env (enter b ctx)).2 →
  client_Do env req = inl err →
  (HandleWithResponse sz env (enter b ctx)).1 = Ret tt
  ∧ StatusCode (Response (st_ctx (HandleWithResponse sz env (enter b ctx)).2))
    = StatusServiceUnavailable
  ∧ last (CtxTags (st_ctx (HandleWithResponse sz env (enter b ctx)).2))
    = Some ("backendErr:" +:+ err)
  ∧ calls is_client_call (st_trace (HandleWithResponse sz env (enter b ctx)).2) = 1%nat
  ∧ calls is_code_count (st_trace (HandleWithResponse sz env (enter b ctx)).2) = 0%nat
  ∧ codes (st_backend (HandleWithResponse sz env (enter b ctx)).2) = codes b.
Proof.
  rewrite HandleWithResponse_run. simpl.
  destruct (memoryCache b) as [mc|]; simpl.
  - destruct (Load mc ctx).1; simpl.
    + intros Hin _. apply elem_of_cons in Hin as [Hin|Hin]; [done | inversion Hin].
    + intros Hin Hdown.
      apply elem_of_app in Hin as [Hin|Hin];
        [|apply elem_of_cons in Hin as [Hin|Hin]; [done | inversion Hin]].
      destruct (forwardWithResponse_transport_failure sz env _ req err Hin)
        as (Hret & Hstatus & Htag & Hcodes & evs & Htr & Hone & Hnone); [|done|].
      { simpl. intros Hc. apply elem_of_cons in Hc as [Hc|Hc]; [done | inversion Hc]. }
      repeat split; auto. all: by rewrite Htr, !calls_app, ?Hone, ?Hnone.
  - intros Hin Hdown.
    destruct (forwardWithResponse_transport_failure sz env _ req err Hin)
      as (Hret & Hstatus & Htag & Hcodes & evs & Htr & Hone & Hnone); [|done|].
    { simpl. intros Hc. inversion Hc. }
    repeat split; auto. all: by rewrite Htr, ?Hone, ?Hnone.
Qed.

(** C6. With a cache configured: on a hit [HandleWithResponse] returns at
    once, leaving the dispatcher as it was (no selection, no counter
    update), the context as [Load] left it (no tag added) and a trace that
    holds the [Load] alone (no outbound request, no [Store]); on a miss,
    however the forwarding ends, by return or by panic, [Store] is called
    once, last. *)
Theorem HandleWithResponse_cache sz env b (ctx : HTTPContext) (mc : MemoryCache) :
  memoryCache b = Some mc →
  ((Load mc ctx).1 = true →
   HandleWithResponse sz env (enter b ctx)
   = (Ret tt, {| st_backend := b; st_ctx := (Load mc ctx).2;
                 st_trace := [CacheLoad true] |}))
  ∧ ((Load mc ctx).1 = false →
     ∃ o st',
       forwardWithResponse sz env
         {| st_backend := b; st_ctx := (Load mc ctx).2;
            st_trace := [CacheLoad false] |} = (o, st')
       ∧ HandleWithResponse sz env (enter b ctx)
         = (o, {| st_backend := st_backend st'; st_ctx := st_ctx st';
                  st_trace := st_trace st' ++ [CacheStore] |})
       ∧ calls is_cache_store (st_trace st') = 0%nat).
Proof.
  intros Hmc. rewrite HandleWithResponse_run. simpl. rewrite Hmc. simpl.
  split; intros Hload; rewrite Hload; [done|].
  set (st1 := {| st_backend := b; st_ctx := (Load mc ctx).2;
                 st_trace := [CacheLoad false] |}).
  exists (forwardWithResponse sz env st1).1, (forwardWithResponse sz env st1).2.
  split; [by destruct (forwardWithResponse sz env st1)|]. split; [done|].
  destruct (forwardWithResponse_calls sz env st1) as (evs & -> & Hevs).
  rewrite calls_app. simpl.
  apply (calls_other is_cache_store is_forward_call); [by intros []|done].
Qed.

(** C2 fails on the code: [HandleWithResponse] never calls the adaptor's
    [AdaptResponse], whatever the dispatcher, the client and the request. *)
Theorem HandleWithResponse_skips_adaptResponse sz env b (ctx : HTTPContext) :
  AdaptResponseCall ∉ st_trace (HandleWithResponse sz env (enter b ctx)).2.
Proof.
  assert (∀ st, AdaptResponseCall ∉ st_trace st →
                AdaptResponseCall ∉ st_trace (forwardWithResponse sz env st).2)
    as Hfwd.
  { intros st Hst. destruct (forwardWithResponse_calls sz env st) as (evs & -> & Hevs).
    intros Hin. apply elem_of_app in Hin as [Hin|Hin]; [done|].
    by apply (proj1 (Forall_forall _ _) Hevs) in Hin. }
  rewrite HandleWithResponse_run. simpl.
  destruct (memoryCache b) as [mc|]; simpl.
  - destruct (Load mc ctx).1; simpl.
    + intros Hin. apply elem_of_cons in Hin as [Hin|Hin]; [done | inversion Hin].
    + intros Hin. apply elem_of_app in Hin as [Hin|Hin].
      * revert Hin. apply Hfwd. simpl. intros Hin.
        apply elem_of_cons in Hin as [Hin|Hin]; [done | inversion Hin].
      * apply elem_of_cons in Hin as [Hin|Hin]; [done | inversion Hin].
  - apply Hfwd. simpl. intros Hin. inversion Hin.
Qed.

End Dispatch.

(** ** Dispatch on the demo deployment *)

(** A successful dispatch with an adaptor and a cache configured: the
    request is adapted, sent and counted, the cache stores the outcome, and
    no call to [AdaptResponse] is made. *)
Example demo_response_not_adapted :
  adaptor (fullBackend missCache) = Some idAdaptor
  ∧ (HandleWithResponse Int64 okEnv (enter (fullBackend missCache) (demoCtx ∅))).1
    = Ret tt
  ∧ st_trace (HandleWithResponse Int64 okEnv
                (enter (fullBackend missCache) (demoCtx ∅))).2
    = [CacheLoad false; AdaptRequestCall true; NewRequestCall "GET" "http://b/";
       ClientDoCall demoOutbound; CodeCount "http://b" 200; CacheStore]
  ∧ CtxTags (st_ctx (HandleWithResponse Int64 okEnv
                       (enter (fullBackend missCache) (demoCtx ∅))).2)
    = ["backendAddr:http://b"; "backendCode:200"]%string.
Proof. vm_compute. auto. Qed.

(** The same dispatch served from the cache. *)
Example demo_cache_hit :
  st_trace (HandleWithResponse Int64 okEnv
              (enter (fullBackend hitCache) (demoCtx ∅))).2
  = [CacheLoad true].
Proof. vm_compute. reflexivity. Qed.

(** The shared client down: 503, the error tagged, the cache still asked to
    store. *)
Example demo_transport_failure :
  st_trace (HandleWithResponse Int64 downEnv
              (enter (fullBackend missCache) (demoCtx ∅))).2
  = [CacheLoad false; AdaptRequestCall true; NewRequestCall "GET" "http://b/";
     ClientDoCall demoOutbound; CacheStore]
  ∧ StatusCode (Response (st_ctx (HandleWithResponse Int64 downEnv
                                    (enter (fullBackend missCache) (demoCtx ∅))).2))
    = 503
  ∧ CtxTags (st_ctx (HandleWithResponse Int64 downEnv
                       (enter (fullBackend missCache) (demoCtx ∅))).2)
    = ["backendAddr:http://b"; "backendErr:connection refused"]%string.
Proof. vm_compute. auto. Qed.

Lemma HandleWithResponse_transport_failure_witness :
  ClientDoCall demoOutbound
    ∈ st_trace (HandleWithResponse Int64 downEnv (enter demoBackend (demoCtx ∅))).2
  ∧ client_Do downEnv demoOutbound = inl "connection refused"%string
  ∧ (HandleWithResponse Int64 downEnv (enter demoBackend (demoCtx ∅))).1 = Ret tt
  ∧ StatusCode (Response (st_ctx (HandleWithResponse Int64 downEnv
                                    (enter demoBackend (demoCtx ∅))).2))
    = StatusServiceUnavailable.
Proof.
  assert (ClientDoCall demoOutbound
            ∈ st_trace (HandleWithResponse Int64 downEnv
                          (enter demoBackend (demoCtx ∅))).2) as Hin.
  { apply (list_elem_of_lookup_2 _ 1%nat). vm_compute. reflexivity. }
  split; [exact Hin|]. split; [reflexivity|].
  pose proof (HandleWithResponse_transport_failure Int64 downEnv demoBackend
                (demoCtx ∅) demoOutbound "connection refused" Hin eq_refl)
    as (Hret & Hstatus & _).
  split; [exact Hret | exact Hstatus].
Defined.

Lemma HandleWithResponse_cache_witness :
  memoryCache (fullBackend hitCache) = Some hitCache
  ∧ (Load hitCache (demoCtx ∅)).1 = true
  ∧ HandleWithResponse Int64 okEnv (enter (fullBackend hitCache) (demoCtx ∅))
    = (Ret tt, {| st_backend := fullBackend hitCache;
                  st_ctx := (Load hitCache (demoCtx ∅)).2;
                  st_trace := [CacheLoad true] |}).
Proof.
  split; [reflexivity|]. split; [reflexivity|].
  exact (proj1 (HandleWithResponse_cache Int64 okEnv (fullBackend hitCache)
                  (demoCtx ∅) hitCache eq_refl) eq_refl).
Defined.

(** A miss on an empty pool: the selection panics, and [Store] still runs. *)
Example demo_store_on_panic :
  (HandleWithResponse Int64 okEnv (enter cachedEmptyBackend (demoCtx ∅))).1
  = Panic DivideByZero
  ∧ st_trace (HandleWithResponse Int64 okEnv
                (enter cachedEmptyBackend (demoCtx ∅))).2
    = [CacheLoad false; CacheStore].
Proof. vm_compute. auto. Qed.

(** * Further properties of the package *)

(** ** The server pool, continued *)

Section PoolMore.

Context {AdaptorSpec CacheSpec : Type}.
Implicit Types (s : @Spec AdaptorSpec CacheSpec) (srv : Server).

Lemma filter_all {A} (P : A → Prop) `{!∀ x, Decision (P x)} (l : list A) :
  (∀ x, x ∈ l → P x) → filter P l = l.
Proof.
  induction l as [|x l IH]; intros Hall; [done|].
  rewrite filter_cons_True by (apply Hall; left).
  f_equal. apply IH. intros y Hy. apply Hall. by right.
Qed.

Lemma filter_sublist_impl {A} (P Q : A → Prop)
    `{!∀ x, Decision (P x)} `{!∀ x, Decision (Q x)} (l : list A) :
  (∀ x, P x → Q x) → filter P l `sublist_of` filter Q l.
Proof.
  intros Himpl. induction l as [|x l IH]; [done|].
  destruct (decide (P x)) as [HP|HP].
  - rewrite (filter_cons_True P) by done.
    rewrite (filter_cons_True Q) by auto. by constructor.
  - rewrite (filter_cons_False P) by done.
    destruct (decide (Q x)).
    + rewrite (filter_cons_True Q) by done. by constructor.
    + by rewrite (filter_cons_False Q) by done.
Qed.

(** X1. With an empty tag filter the pool is the whole configured list,
    whether or not the servers carry tags. *)
Theorem pickServers_no_filter s :
  ServersTags s = [] → pickServers s = Servers s.
Proof.
  intros Hnil. rewrite pickServers_filter, Hnil.
  apply filter_all. intros srv _ t Ht. inversion Ht.
Qed.

(** X2. [Spec.Validate] passes exactly when some configured server carries
    every tag of the filter; in particular an empty server list never
    passes. *)
Theorem Spec_Validate_passes_iff s :
  Spec_Validate s = None ↔ ∃ srv, srv ∈ Servers s ∧ ServersTags s ⊆ Tags srv.
Proof.
  split.
  - intros Hok.
    destruct (pickServers s) as [|srv l] eqn:Hpick.
    + assert (is_Some (Spec_Validate s)) as [err Herr]
        by (by apply Spec_Validate_rejects).
      congruence.
    + assert (srv ∈ pickServers s) as Hin by (rewrite Hpick; left).
      rewrite pickServers_filter in Hin.
      apply list_elem_of_filter in Hin as [Hsub Hin]. by exists srv.
  - intros (srv & Hin & Hsub).
    destruct (Spec_Validate s) as [err|] eqn:Hv; [|done].
    assert (pickServers s = []) as Hnil
      by (apply Spec_Validate_rejects; by exists err).
    assert (srv ∈ pickServers s) as Hsrv.
    { rewrite pickServers_filter. apply list_elem_of_filter. by split. }
    rewrite Hnil in Hsrv. inversion Hsrv.
Qed.

(** X3. A stricter filter picks a subsequence of what a laxer one picks
    from the same configured servers; so the pool depends on the filter
    only through the set of its tags. *)
Theorem pickServers_antitone s1 s2 :
  Servers s1 = Servers s2 →
  ServersTags s1 ⊆ ServersTags s2 →
  pickServers s2 `sublist_of` pickServers s1.
Proof.
  intros Hsrv Hsub. rewrite !pickServers_filter, Hsrv.
  apply filter_sublist_impl. intros srv H2 t Ht. by apply H2, Hsub.
Qed.

(** X4. Filtering is idempotent: a spec whose server list is the pool
    already picked, under the same filter, picks that pool again. *)
Theorem pickServers_idempotent s :
  pickServers {| ServersTags := ServersTags s;
                 Servers := pickServers s;
                 spec_LoadBalance := spec_LoadBalance s;
                 spec_Adaptor := spec_Adaptor s;
                 spec_MemoryCache := spec_MemoryCache s |}
  = pickServers s.
Proof.
  rewrite (pickServers_filter {| Servers := pickServers s |}). simpl.
  apply filter_all. intros srv Hin. rewrite pickServers_filter in Hin.
  by apply list_elem_of_filter in Hin as [? _].
Qed.

End PoolMore.

Lemma pickServers_no_filter_witness :
  ServersTags (demoSpec [] policyRoundRobin) = []
  ∧ pickServers (demoSpec [] policyRoundRobin) = [serverA; serverB; serverC].
Proof.
  split; [reflexivity|].
  exact (pickServers_no_filter (demoSpec [] policyRoundRobin) eq_refl).
Defined.

Lemma pickServers_antitone_witness :
  Servers (demoSpec ["v1"%string] policyRoundRobin)
    = Servers (demoSpec ["v1"; "v2"]%string policyRoundRobin)
  ∧ ServersTags (demoSpec ["v1"%string] policyRoundRobin)
      ⊆ ServersTags (demoSpec ["v1"; "v2"]%string policyRoundRobin)
  ∧ pickServers (demoSpec ["v1"; "v2"]%string policyRoundRobin)
      `sublist_of` pickServers (demoSpec ["v1"%string] policyRoundRobin).
Proof.
  assert (ServersTags (demoSpec ["v1"%string] policyRoundRobin)
            ⊆ ServersTags (demoSpec ["v1"; "v2"]%string policyRoundRobin)) as Hsub.
  { intros t Ht. apply elem_of_cons in Ht as [->|Ht]; [left | inversion Ht]. }
  split; [reflexivity|]. split; [exact Hsub|].
  exact (pickServers_antitone (demoSpec ["v1"%string] policyRoundRobin)
           (demoSpec ["v1"; "v2"]%string policyRoundRobin) eq_refl Hsub).
Defined.

(** ** The selection policies, continued *)

Section SelectionMore.

Context {AdaptorSpec CacheSpec : Type}.
Implicit Types (st : @State AdaptorSpec CacheSpec)
  (b : @HTTPBackend AdaptorSpec CacheSpec).

Lemma len_pos {A} (l : list A) : l ≠ [] → 0 < len l.
Proof. unfold len. destruct l; [done | simpl; lia]. Qed.

(** A [uint32] hash: always inside [[0, 2^32)]. *)
Lemma fnv32a_write_range (key : string) (h : Z) :
  0 ≤ h < 2 ^ 32 → 0 ≤ fnv32a_write h key < 2 ^ 32.
Proof.
  revert h. induction key as [|c key IH]; intros h Hh; simpl; [done|].
  apply IH. unfold wrap_uint32. apply Z.mod_pos_bound. lia.
Qed.

Lemma hash32Once_range (key : string) : 0 ≤ hash32Once key < 2 ^ 32.
Proof. apply fnv32a_write_range. unfold fnv_offset32. lia. Qed.

(** Indexing the pool with a non-negative number reduced modulo its size. *)
Lemma index_nonneg {A} (l : list A) (h : Z) :
  l ≠ [] → 0 ≤ h →
  ∃ a, match go_rem h (len l) with
       | Ret i => slice_at l i
       | Panic p => Panic p
       end = Ret (h mod len l, a)
       ∧ l !! Z.to_nat (h mod len l) = Some a.
Proof.
  intros Hne Hh. pose proof (len_pos l Hne) as Hn.
  unfold go_rem. destruct (Z.eqb_spec (len l) 0) as [|_]; [lia|].
  rewrite Z.rem_mod_nonneg by lia.
  pose proof (Z.mod_pos_bound h (len l) Hn) as Hmod.
  unfold slice_at. destruct (Z.ltb_spec (h mod len l) 0) as [|_]; [lia|].
  destruct (lookup_lt_is_Some_2 l (Z.to_nat (h mod len l))) as [a Ha].
  { unfold len in *. lia. }
  exists a. by rewrite Ha.
Qed.

(** Indexing the pool with a negative number whose magnitude the pool size
    does not divide. *)
Lemma index_negative {A} (l : list A) (h : Z) :
  l ≠ [] → h < 0 → (- h) mod len l ≠ 0 →
  match go_rem h (len l) with
  | Ret i => slice_at l i
  | Panic p => Panic p
  end = Panic IndexOutOfRange.
Proof.
  intros Hne Hh Hmod. pose proof (len_pos l Hne) as Hn.
  unfold go_rem. destruct (Z.eqb_spec (len l) 0) as [|_]; [lia|].
  replace h with (- - h) by lia.
  rewrite Z.rem_opp_l, Z.rem_mod_nonneg by lia.
  pose proof (Z.mod_pos_bound (- h) (len l) Hn).
  unfold slice_at.
  destruct (Z.ltb_spec (- ((- h) mod len l)) 0) as [|]; [done | lia].
Qed.

Lemma to_int_int32_high (h : Z) :
  2 ^ 31 ≤ h < 2 ^ 32 → to_int Int32 h = h - 2 ^ 32.
Proof.
  intros Hh. unfold to_int. simpl int_bits.
  rewrite Z.mod_small by lia.
  destruct (Z.ltb_spec h (2 ^ 32 / 2)) as [Hlt|_]; [|done].
  change (2 ^ 32 / 2) with (2 ^ 31) in Hlt. lia.
Qed.

Lemma ipHash_run sz st :
  (ipHash sz st).1 =
  match go_rem (to_int sz (hash32Once (RealIP (Request (st_ctx st)))))
          (len (servers (st_backend st))) with
  | Ret i => slice_at (servers (st_backend st)) i
  | Panic p => Panic p
  end.
Proof.
  unfold ipHash, m_bind, get_backend, get_ctx, lift. simpl.
  by destruct (go_rem _ _).
Qed.

Lemma headerHash_run sz st (lb : LoadBalance) :
  spec_LoadBalance (spec (st_backend st)) = Some lb →
  (headerHash sz st).1 =
  match go_rem (to_int sz (hash32Once
                  (Header_Get (Header (Request (st_ctx st))) (HeaderHashKey lb))))
          (len (servers (st_backend st))) with
  | Ret i => slice_at (servers (st_backend st)) i
  | Panic p => Panic p
  end.
Proof.
  intros Hlb.
  unfold headerHash, m_bind, get_backend, get_ctx, deref, lift, m_ret. simpl.
  rewrite Hlb. simpl. by destruct (go_rem _ _).
Qed.

Lemma random_run env st :
  (random env st).1 =
  match rand_Intn env (len (servers (st_backend st))) with
  | Ret i => slice_at (servers (st_backend st)) i
  | Panic p => Panic p
  end.
Proof.
  unfold random, m_bind, get_backend, lift. simpl.
  by destruct (rand_Intn _ _).
Qed.

Lemma hash_to_int64 (key : string) :
  to_int Int64 (hash32Once key) = hash32Once key.
Proof.
  pose proof (hash32Once_range key). apply to_int_small. simpl. lia.
Qed.

(** X5. On a 64-bit platform the client-IP policy returns the server at
    index [hash(ip) mod n] of a non-empty pool of [n] servers: the choice
    depends on the caller's IP and the pool alone, not on the counter, the
    headers or earlier requests. *)
Theorem ipHash_index st :
  servers (st_backend st) ≠ [] →
  ∃ srv,
    (ipHash Int64 st).1
    = Ret (hash32Once (RealIP (Request (st_ctx st)))
             mod len (servers (st_backend st)), srv)
    ∧ servers (st_backend st)
        !! Z.to_nat (hash32Once (RealIP (Request (st_ctx st)))
                       mod len (servers (st_backend st))) = Some srv
    ∧ (ipHash Int64 st).2 = st.
Proof.
  intros Hne. rewrite ipHash_run, hash_to_int64.
  destruct (index_nonneg (servers (st_backend st))
              (hash32Once (RealIP (Request (st_ctx st)))) Hne)
    as (srv & Hret & Hsrv).
  { pose proof (hash32Once_range (RealIP (Request (st_ctx st)))). lia. }
  exists srv. split; [done|]. split; [done|]. apply ipHash_state.
Qed.

(** X6. On a 64-bit platform the header policy returns the server at index
    [hash(value) mod n], where [value] is what the request carries under the
    configured header name. *)
Theorem headerHash_index st (lb : LoadBalance) :
  spec_LoadBalance (spec (st_backend st)) = Some lb →
  servers (st_backend st) ≠ [] →
  ∃ srv,
    (headerHash Int64 st).1
    = Ret (hash32Once (Header_Get (Header (Request (st_ctx st))) (HeaderHashKey lb))
             mod len (servers (st_backend st)), srv)
    ∧ servers (st_backend st)
        !! Z.to_nat (hash32Once (Header_Get (Header (Request (st_ctx st)))
                                   (HeaderHashKey lb))
                       mod len (servers (st_backend st))) = Some srv.
Proof.
  intros Hlb Hne. rewrite (headerHash_run Int64 st lb Hlb), hash_to_int64.
  destruct (index_nonneg (servers (st_backend st))
              (hash32Once (Header_Get (Header (Request (st_ctx st)))
                             (HeaderHashKey lb))) Hne)
    as (srv & Hret & Hsrv).
  { pose proof (hash32Once_range (Header_Get (Header (Request (st_ctx st)))
                                    (HeaderHashKey lb))). lia. }
  by exists srv.
Qed.

(** X7. On a 32-bit platform the conversion [int(hash)] is negative for
    every hash of [2^31] or more, and both hash policies then index the
    pool with a negative remainder: the selection panics unless the pool
    size divides [2^32 - hash]. *)
Theorem hash_policies_int32 st :
  servers (st_backend st) ≠ [] →
  (2 ^ 31 ≤ hash32Once (RealIP (Request (st_ctx st))) →
   (2 ^ 32 - hash32Once (RealIP (Request (st_ctx st))))
     mod len (servers (st_backend st)) ≠ 0 →
   (ipHash Int32 st).1 = Panic IndexOutOfRange)
  ∧ (∀ lb,
       spec_LoadBalance (spec (st_backend st)) = Some lb →
       2 ^ 31 ≤ hash32Once (Header_Get (Header (Request (st_ctx st)))
                              (HeaderHashKey lb)) →
       (2 ^ 32 - hash32Once (Header_Get (Header (Request (st_ctx st)))
                               (HeaderHashKey lb)))
         mod len (servers (st_backend st)) ≠ 0 →
       (headerHash Int32 st).1 = Panic IndexOutOfRange).
Proof.
  intros Hne. split.
  - intros Hhigh Hmod. rewrite ipHash_run.
    pose proof (hash32Once_range (RealIP (Request (st_ctx st)))) as Hr.
    rewrite to_int_int32_high by lia.
    apply index_negative; [done | lia |].
    by replace (- (hash32Once (RealIP (Request (st_ctx st))) - 2 ^ 32))
      with (2 ^ 32 - hash32Once (RealIP (Request (st_ctx st)))) by lia.
  - intros lb Hlb Hhigh Hmod. rewrite (headerHash_run Int32 st lb Hlb).
    set (h := hash32Once (Header_Get (Header (Request (st_ctx st)))
                            (HeaderHashKey lb))) in *.
    pose proof (hash32Once_range (Header_Get (Header (Request (st_ctx st)))
                                    (HeaderHashKey lb))) as Hr.
    fold h in Hr. rewrite to_int_int32_high by lia.
    apply index_negative; [done | lia |].
    by replace (- (h - 2 ^ 32)) with (2 ^ 32 - h) by lia.
Qed.

(** Indexing the pool with what [rand.Intn] draws for its size. *)
Lemma index_random {A} env (l : list A) :
  l ≠ [] →
  ∃ i a, match rand_Intn env (len l) with
         | Ret i => slice_at l i
         | Panic p => Panic p
         end = Ret (i, a)
         ∧ 0 ≤ i < len l
         ∧ l !! Z.to_nat i = Some a.
Proof.
  intros Hne. pose proof (len_pos _ Hne) as Hn.
  unfold rand_Intn.
  destruct (Z.leb_spec (len l) 0) as [|_]; [lia|].
  set (i := rand_draw env (len l) mod len l).
  pose proof (Z.mod_pos_bound (rand_draw env (len l)) (len l) Hn) as Hi.
  fold i in Hi.
  unfold slice_at. destruct (Z.ltb_spec i 0) as [|_]; [lia|].
  destruct (lookup_lt_is_Some_2 l (Z.to_nat i)) as [a Ha].
  { unfold len in *. lia. }
  exists i, a. by rewrite Ha.
Qed.

(** X8. The random policy on a non-empty pool returns a server of the pool
    at an index inside it, and leaves the dispatcher, counter included, as
    it was. *)
Theorem random_in_pool env st :
  servers (st_backend st) ≠ [] →
  ∃ i srv,
    (random env st).1 = Ret (i, srv)
    ∧ 0 ≤ i < len (servers (st_backend st))
    ∧ servers (st_backend st) !! Z.to_nat i = Some srv
    ∧ (random env st).2 = st.
Proof.
  intros Hne. rewrite random_run.
  destruct (index_random env (servers (st_backend st)) Hne)
    as (i & srv & Hret & Hi & Hsrv).
  exists i, srv. repeat split; try done; try lia. apply random_state.
Qed.

Lemma nextServer_returns env st (lb : LoadBalance) :
  spec_LoadBalance (spec (st_backend st)) = Some lb →
  servers (st_backend st) ≠ [] →
  0 ≤ count (st_backend st) →
  count (st_backend st) + 1 < 2 ^ 63 →
  ∃ i srv,
    (nextServer Int64 env st).1 = Ret (i, srv)
    ∧ 0 ≤ i < len (servers (st_backend st))
    ∧ servers (st_backend st) !! Z.to_nat i = Some srv.
Proof.
  intros Hlb Hne H0 Hlt.
  assert (∃ i srv, (nextServer Int64 env st).1 = Ret (i, srv)) as (i & srv & Hret).
  { rewrite nextServer_run, Hlb.
    assert (∀ tr, ∃ i srv,
              (roundRobin Int64 {| st_backend := st_backend st;
                                   st_ctx := st_ctx st; st_trace := tr |}).1
              = Ret (i, srv)) as Hrr.
    { intros tr.
      destruct (roundRobin_in_range Int64
                  {| st_backend := st_backend st; st_ctx := st_ctx st;
                     st_trace := tr |}) as (srv & Hret & _); simpl; eauto. }
    repeat case_match.
    - destruct (Hrr (st_trace st)) as (i & srv & Hret).
      rewrite state_eta in Hret. eauto.
    - rewrite random_run.
      destruct (index_random env (servers (st_backend st)) Hne)
        as (i & srv & Hret & _). eauto.
    - rewrite ipHash_run, hash_to_int64.
      destruct (index_nonneg (servers (st_backend st))
                  (hash32Once (RealIP (Request (st_ctx st)))) Hne)
        as (srv & Hret & _); [|eauto].
      pose proof (hash32Once_range (RealIP (Request (st_ctx st)))). lia.
    - rewrite (headerHash_run Int64 st lb Hlb), hash_to_int64.
      destruct (index_nonneg (servers (st_backend st))
                  (hash32Once (Header_Get (Header (Request (st_ctx st)))
                                 (HeaderHashKey lb))) Hne)
        as (srv & Hret & _); [|eauto].
      pose proof (hash32Once_range (Header_Get (Header (Request (st_ctx st)))
                                      (HeaderHashKey lb))). lia.
    - apply Hrr. }
  exists i, srv. split; [done|]. by apply (nextServer_Ret Int64 env).
Qed.

(** X9. On a 64-bit platform, with a load-balance section configured, a
    non-empty pool and a counter that still fits an [int], [nextServer]
    returns a server of the pool whatever the policy string is. *)
Theorem nextServer_in_pool env st (lb : LoadBalance) :
  spec_LoadBalance (spec (st_backend st)) = Some lb →
  servers (st_backend st) ≠ [] →
  0 ≤ count (st_backend st) →
  count (st_backend st) + 1 < 2 ^ 63 →
  ∃ i srv,
    (nextServer Int64 env st).1 = Ret (i, srv)
    ∧ 0 ≤ i < len (servers (st_backend st))
    ∧ servers (st_backend st) !! Z.to_nat i = Some srv.
Proof. apply nextServer_returns. Qed.


End SelectionMore.

Lemma ipHash_index_witness :
  servers demoBackend ≠ []
  ∧ ∃ srv,
      (ipHash Int64 (enter demoBackend (demoCtx ∅))).1
      = Ret (hash32Once "10.0.0.1" mod 2, srv)
      ∧ servers demoBackend !! Z.to_nat (hash32Once "10.0.0.1" mod 2) = Some srv
      ∧ (ipHash Int64 (enter demoBackend (demoCtx ∅))).2
        = enter demoBackend (demoCtx ∅).
Proof.
  split; [discriminate|].
  exact (ipHash_index (enter demoBackend (demoCtx ∅)) ltac:(discriminate)).
Defined.

Lemma headerHash_index_witness :
  servers demoBackend ≠ []
  ∧ ∃ srv,
      (headerHash Int64
         (enter (demoNew (demoSpec ["v1"%string] policyHeaderHash))
            (demoCtx {["X-Key"%string := ["alice"%string]]}))).1
      = Ret (hash32Once (Header_Get {["X-Key"%string := ["alice"%string]]} "X-Key")
               mod 2, srv)
      ∧ servers demoBackend
          !! Z.to_nat (hash32Once
                         (Header_Get {["X-Key"%string := ["alice"%string]]} "X-Key")
                         mod 2) = Some srv.
Proof.
  split; [discriminate|].
  exact (headerHash_index
           (enter (demoNew (demoSpec ["v1"%string] policyHeaderHash))
              (demoCtx {["X-Key"%string := ["alice"%string]]}))
           {| Policy := policyHeaderHash; HeaderHashKey := "X-Key" |}
           eq_refl ltac:(discriminate)).
Defined.

(** On a 32-bit platform the demo request, from 10.0.0.1 and without the
    header, cannot be dispatched to the pool [A; B] by either hash policy. *)
Lemma hash_policies_int32_witness :
  servers demoBackend ≠ []
  ∧ 2 ^ 31 ≤ hash32Once "10.0.0.1"
  ∧ (2 ^ 32 - hash32Once "10.0.0.1") mod 2 ≠ 0
  ∧ (ipHash Int32 (enter demoBackend (demoCtx ∅))).1 = Panic IndexOutOfRange
  ∧ (headerHash Int32 (enter demoBackend (demoCtx ∅))).1 = Panic IndexOutOfRange.
Proof.
  assert (2 ^ 31 ≤ hash32Once "10.0.0.1") as Hip by (vm_compute; discriminate).
  assert ((2 ^ 32 - hash32Once "10.0.0.1") mod 2 ≠ 0) as Hipm
    by (vm_compute; discriminate).
  split; [discriminate|]. split; [exact Hip|]. split; [exact Hipm|].
  pose proof (hash_policies_int32 (enter demoBackend (demoCtx ∅))
                ltac:(discriminate)) as [Hi Hh].
  split; [exact (Hi Hip Hipm)|].
  apply (Hh {| Policy := policyRoundRobin; HeaderHashKey := "X-Key" |} eq_refl);
    vm_compute; discriminate.
Defined.

Lemma random_in_pool_witness :
  servers demoBackend ≠ []
  ∧ ∃ i srv,
      (random okEnv (enter demoBackend (demoCtx ∅))).1 = Ret (i, srv)
      ∧ 0 ≤ i < 2
      ∧ servers demoBackend !! Z.to_nat i = Some srv
      ∧ (random okEnv (enter demoBackend (demoCtx ∅))).2
        = enter demoBackend (demoCtx ∅).
Proof.
  split; [discriminate|].
  exact (random_in_pool okEnv (enter demoBackend (demoCtx ∅)) ltac:(discriminate)).
Defined.

Lemma nextServer_in_pool_witness :
  servers demoBackend ≠ []
  ∧ count demoBackend + 1 < 2 ^ 63
  ∧ ∃ i srv,
      (nextServer Int64 okEnv
         (enter (demoNew (demoSpec ["v1"%string] policyIPHash)) (demoCtx ∅))).1
      = Ret (i, srv)
      ∧ 0 ≤ i < 2
      ∧ servers demoBackend !! Z.to_nat i = Some srv.
Proof.
  split; [discriminate|]. split; [reflexivity|].
  exact (nextServer_in_pool okEnv
           (enter (demoNew (demoSpec ["v1"%string] policyIPHash)) (demoCtx ∅))
           {| Policy := policyIPHash; HeaderHashKey := "X-Key" |}
           eq_refl ltac:(discriminate) ltac:(discriminate) eq_refl).
Defined.


(** ** Dispatch with a response, continued *)

Section DispatchMore.

Context {AdaptorSpec CacheSpec : Type}.
Implicit Types (st : @State AdaptorSpec CacheSpec)
  (b : @HTTPBackend AdaptorSpec CacheSpec).

(** The context in which the outbound request is built: the one handed in,
    or what the cache's [Load] made of it. *)
Lemma adaptRequest_shape (inPlace : bool) st :
  ∃ m pth h ctx2 pre,
    adaptRequest inPlace st
    = (Ret (m, pth, h),
       {| st_backend := st_backend st; st_ctx := ctx2;
          st_trace := st_trace st ++ pre |})
    ∧ Forall (λ e, is_setup e = true) pre
    ∧ (adaptor (st_backend st) = None →
       pre = [] ∧ ctx2 = st_ctx st
       ∧ m = Method (Request (st_ctx st))
       ∧ pth = Path (Request (st_ctx st))
       ∧ h = Header (Request (st_ctx st)))
    ∧ (∀ a, adaptor (st_backend st) = Some a →
            ctx2 = (AdaptRequest a (st_ctx st) inPlace).2).
Proof.
  rewrite adaptRequest_run. destruct (adaptor (st_backend st)) as [a|].
  - destruct (AdaptRequest a (st_ctx st) inPlace) as [[[m pth] h] ctx2] eqn:Ha.
    exists m, pth, h, ctx2, [AdaptRequestCall inPlace]. simpl.
    split; [done|]. split; [by repeat constructor|]. split; [done|].
    intros a' [= <-]. by rewrite Ha.
  - eexists _, _, _, (st_ctx st), []. rewrite app_nil_r, state_eta.
    split; [done|]. split; [constructor|]. split; [done|]. done.
Qed.

(** [forwardWithResponse], path by path. *)
Lemma forwardWithResponse_shape sz env st :
  (∃ p st1, nextServer sz env st = (Panic p, st1)
            ∧ forwardWithResponse sz env st = (Panic p, st1))
  ∨ (∃ i server st1 m pth h ctx2 pre,
       nextServer sz env st = (Ret (i, server), st1)
       ∧ adaptRequest true
           {| st_backend := st_backend st1;
              st_ctx := AddTag ("backendAddr:" +:+ URL server) (st_ctx st1);
              st_trace := st_trace st1 |}
         = (Ret (m, pth, h),
            {| st_backend := st_backend st1; st_ctx := ctx2;
               st_trace := st_trace st1 ++ pre |})
       ∧ Forall (λ e, is_setup e = true) pre
       ∧ forwardWithResponse sz env st =
         let url := URL server +:+ pth in
         let req := {| out_method := m; out_url := url; out_header := h;
                       out_body := Body (Request ctx2) |} in
         match NewRequest_err env m url with
         | Some err =>
             (Ret tt,
              {| st_backend := st_backend st1;
                 st_ctx := AddTag ("backendBug:" +:+ err)
                             (SetStatusCode StatusInternalServerError ctx2);
                 st_trace := st_trace st1 ++ pre ++
                   [NewRequestCall m url;
                    LogError ("BUG: new request failed: " +:+ err)] |})
         | None =>
             match client_Do env req with
             | inl err =>
                 (Ret tt,
                  {| st_backend := st_backend st1;
                     st_ctx := AddTag ("backendErr:" +:+ err)
                                 (SetStatusCode StatusServiceUnavailable ctx2);
                     st_trace := st_trace st1 ++ pre ++
                       [NewRequestCall m url; ClientDoCall req] |})
             | inr resp =>
                 (Ret tt,
                  {| st_backend :=
                       set_codes (st_backend st1)
                         (codeCounter_count (codes (st_backend st1)) server
                            (br_StatusCode resp));
                     st_ctx :=
                       OnFinish TagBackendDuration
                         (foldl (λ c fn, fn c)
                            (SetBody (br_Body resp)
                               (AddRespHeaderFromStd (br_Header resp)
                                  (AddTag ("backendCode:" +:+ pretty (br_StatusCode resp))
                                     (SetStatusCode (br_StatusCode resp) ctx2))))
                            (responseGotFuncs (st_backend st1)));
                     st_trace := st_trace st1 ++ pre ++
                       [NewRequestCall m url; ClientDoCall req;
                        CodeCount (URL server) (br_StatusCode resp)] ++
                       (ResponseGotCall <$>
                          seq 0 (length (responseGotFuncs (st_backend st1)))) |})
             end
         end).
Proof.
  unfold forwardWithResponse, m_bind.
  destruct (nextServer sz env st) as [[[i server]|p] st1]; [right | left; eauto].
  simpl.
  destruct (adaptRequest_shape true
              {| st_backend := st_backend st1;
                 st_ctx := AddTag ("backendAddr:" +:+ URL server) (st_ctx st1);
                 st_trace := st_trace st1 |})
    as (m & pth & h & ctx2 & pre & Had & Hpre & _).
  exists i, server, st1, m, pth, h, ctx2, pre.
  split; [done|]. split; [exact Had|]. split; [exact Hpre|].
  unfold update_ctx at 1. simpl. simpl in Had. rewrite Had. simpl.
  unfold get_ctx, emit, update_ctx, get_backend, put_backend. simpl.
  destruct (NewRequest_err env m (URL server +:+ pth)) as [err|]; simpl.
  - by rewrite <- !app_assoc.
  - destruct (client_Do env _) as [err|resp]; simpl.
    + by rewrite <- !app_assoc.
    + rewrite callResponseGotFuncs_run. simpl. by rewrite <- !app_assoc.
Qed.

Lemma set_count_same b : set_count b (count b) = b.
Proof. by destruct b. Qed.

(** A selection leaves every field of the dispatcher but the counter. *)
Lemma nextServer_backend sz env st :
  ∃ c, st_backend (nextServer sz env st).2 = set_count (st_backend st) c.
Proof.
  rewrite nextServer_run. destruct (spec_LoadBalance _) as [lb|].
  - repeat case_match;
      rewrite ?roundRobin_run, ?random_state, ?ipHash_state, ?headerHash_state;
      simpl; eauto using eq_sym, set_count_same.
  - eauto using eq_sym, set_count_same.
Qed.

(** [forwardWithResponse] from any state, with the deferred calls [tl]
    that follow it. *)
Lemma forwardWithResponse_forwarded sz env st (tl : list event) :
  Forall (λ e, is_cache_call e = true) (st_trace st) →
  Forall (λ e, is_cache_call e = true) tl →
  forwarded env (st_backend st) (st_ctx st)
    ((forwardWithResponse sz env st).1,
     {| st_backend := st_backend (forwardWithResponse sz env st).2;
        st_ctx := st_ctx (forwardWithResponse sz env st).2;
        st_trace := st_trace (forwardWithResponse sz env st).2 ++ tl |}).
Proof.
  intros Hhd Htl.
  destruct (nextServer_effect sz env st)
    as (Hctx & _ & _ & _ & logs & Htr & Hlogs).
  destruct (nextServer_backend sz env st) as [c Hback].
  exists (st_trace st), tl.
  destruct (forwardWithResponse_shape sz env st)
    as [(p & st1 & Hn & ->)
       |(i & server & st1 & m & pth & h & ctx2 & pre & Hn & Had & Hpre & ->)];
    rewrite Hn in Hctx, Htr, Hback; simpl in Hctx, Htr, Hback.
  - exists logs, c. repeat (split; [done|]). left. exists p. simpl.
    by rewrite Hback, Hctx, Htr, <- app_assoc.
  - exists (logs ++ pre), c. split; [done|]. split; [done|].
    split; [by apply Forall_app|]. right.
    exists server, m, pth, h, ctx2.
    split.
    { pose proof (nextServer_Ret sz env st i server) as Hret.
      rewrite Hn in Hret. destruct (Hret eq_refl) as [_ Hlook].
      by apply list_elem_of_lookup_2 in Hlook. }
    split.
    { intros Hnone.
      destruct (adaptRequest_shape true
                  {| st_backend := st_backend st1;
                     st_ctx := AddTag ("backendAddr:" +:+ URL server) (st_ctx st1);
                     st_trace := st_trace st1 |})
        as (m' & pth' & h' & ctx2' & pre' & Had' & _ & Hn' & _).
      rewrite Had in Had'. injection Had' as -> -> -> -> _.
      simpl in Hn'. rewrite Hback in Hn'. simpl in Hn'.
      destruct (Hn' Hnone) as (_ & -> & -> & -> & ->).
      by rewrite Hctx. }
    rewrite Hback, Htr. simpl.
    destruct (NewRequest_err env m (URL server +:+ pth)); simpl;
      [by rewrite <- !app_assoc|].
    destruct (client_Do env _); simpl; by rewrite <- !app_assoc.
Qed.

(** [HandleWithResponse]: served from the cache, or forwarded. *)
Lemma HandleWithResponse_paths sz env b (ctx : HTTPContext) :
  (∃ mc, memoryCache b = Some mc ∧ (Load mc ctx).1 = true
         ∧ HandleWithResponse sz env (enter b ctx)
           = (Ret tt, {| st_backend := b; st_ctx := (Load mc ctx).2;
                         st_trace := [CacheLoad true] |}))
  ∨ forwarded env b
      match memoryCache b with
      | Some mc => (Load mc ctx).2
      | None => ctx
      end
      (HandleWithResponse sz env (enter b ctx)).
Proof.
  rewrite HandleWithResponse_run. simpl.
  destruct (memoryCache b) as [mc|] eqn:Hmc; simpl.
  - destruct (Load mc ctx).1 eqn:Hload.
    + left. by exists mc.
    + right.
      apply (forwardWithResponse_forwarded sz env
               {| st_backend := b; st_ctx := (Load mc ctx).2;
                  st_trace := [CacheLoad false] |} [CacheStore]);
        by repeat constructor.
  - right.
    pose proof (forwardWithResponse_forwarded sz env (enter b ctx) []) as Hf.
    simpl in Hf. rewrite app_nil_r, state_eta in Hf.
    destruct (forwardWithResponse sz env (enter b ctx)) as [o st'].
    apply Hf; constructor.
Qed.

(** Calls of a kind other than cache calls and setup calls sit in the
    middle part of a trace [hd ++ pre ++ mid ++ tl]. *)
Lemma kind_in_mid (kind : event → bool) (e : event) (hd pre mid tl : list event) :
  kind e = true →
  (∀ x, is_cache_call x = true → kind x = false) →
  (∀ x, is_setup x = true → kind x = false) →
  Forall (λ x, is_cache_call x = true) hd →
  Forall (λ x, is_cache_call x = true) tl →
  Forall (λ x, is_setup x = true) pre →
  e ∈ hd ++ pre ++ mid ++ tl → e ∈ mid.
Proof.
  intros He Hc Hs Hhd Htl Hpre Hin.
  rewrite !elem_of_app in Hin.
  destruct Hin as [Hin|[Hin|[Hin|Hin]]]; [| |done|].
  - apply (proj1 (Forall_forall _ _) Hhd), Hc in Hin. congruence.
  - apply (proj1 (Forall_forall _ _) Hpre), Hs in Hin. congruence.
  - apply (proj1 (Forall_forall _ _) Htl), Hc in Hin. congruence.
Qed.

Lemma calls_mid (kind : event → bool) (hd pre mid tl : list event) :
  (∀ x, is_cache_call x = true → kind x = false) →
  (∀ x, is_setup x = true → kind x = false) →
  Forall (λ x, is_cache_call x = true) hd →
  Forall (λ x, is_cache_call x = true) tl →
  Forall (λ x, is_setup x = true) pre →
  calls kind (hd ++ pre ++ mid ++ tl) = calls kind mid.
Proof.
  intros Hc Hs Hhd Htl Hpre. rewrite !calls_app.
  rewrite (calls_other kind is_cache_call hd), (calls_other kind is_setup pre),
    (calls_other kind is_cache_call tl) by done. lia.
Qed.

Lemma filter_other (kind other : event → bool) (l : list event) :
  (∀ e, other e = true → kind e = false) →
  Forall (λ e, other e = true) l →
  List.filter kind l = [].
Proof.
  intros Hdisj Hall. induction Hall as [|e l He _ IH]; [done|].
  simpl. by rewrite (Hdisj e He).
Qed.

Lemma filter_callbacks (i n : nat) :
  List.filter is_callback (ResponseGotCall <$> seq i n)
  = ResponseGotCall <$> seq i n.
Proof.
  revert i. induction n as [|n IH]; intros i; simpl; [done|].
  f_equal. apply IH.
Qed.

Lemma calls_callbacks (kind : event → bool) (i n : nat) :
  (∀ k, kind (ResponseGotCall k) = false) →
  calls kind (ResponseGotCall <$> seq i n) = 0%nat.
Proof.
  intros Hk. apply (calls_other kind is_callback).
  - intros [] He; try done; apply Hk.
  - apply Forall_callbacks.
Qed.

Lemma cache_not_client x : is_cache_call x = true → is_client_call x = false.
Proof. by destruct x. Qed.
Lemma setup_not_client x : is_setup x = true → is_client_call x = false.
Proof. by destruct x. Qed.
Lemma cache_not_count x : is_cache_call x = true → is_code_count x = false.
Proof. by destruct x. Qed.
Lemma setup_not_count x : is_setup x = true → is_code_count x = false.
Proof. by destruct x. Qed.
Lemma cache_not_callback x : is_cache_call x = true → is_callback x = false.
Proof. by destruct x. Qed.
Lemma setup_not_callback x : is_setup x = true → is_callback x = false.
Proof. by destruct x. Qed.
Lemma cache_not_request x : is_cache_call x = true → is_new_request x = false.
Proof. by destruct x. Qed.
Lemma setup_not_request x : is_setup x = true → is_new_request x = false.
Proof. by destruct x. Qed.

Create HintDb kinds.

Local Hint Resolve cache_not_client setup_not_client cache_not_count
  setup_not_count cache_not_callback setup_not_callback cache_not_request
  setup_not_request : kinds.

(** Splits a dispatch into its five ways to end: served from the cache,
    selection panicked, request not built, client failed, client answered. *)
Local Ltac dispatch_paths sz env b ctx :=
  let Hr := fresh "Hr" in
  destruct (HandleWithResponse_paths sz env b ctx)
    as [(?mc & ?Hmc & ?Hload & Hr)
       |(?hd & ?tl & ?pre & ?c & ?Hhd & ?Htl & ?Hpre &
         [[?p Hr]|(?server & ?m & ?pth & ?h & ?ctx2 & ?Hsrv & ?Hnone & Hr)])];
    [ | | cbv zeta in Hr;
          destruct (NewRequest_err env m (URL server +:+ pth)) as [?err|] eqn:?HE;
          [ | match type of Hr with
              | context [client_Do env ?r] =>
                  destruct (client_Do env r) as [?err|?resp] eqn:?HD
              end ] ];
    rewrite Hr in *; clear Hr;
    cbn [fst snd st_trace st_backend st_ctx] in *.

(** X11. When the shared client answers, [HandleWithResponse] returns after
    one client call; the status is counted once, for a server of the pool;
    every registered callback is called once, in registration order, on the
    context that already carries the backend's status, headers and body;
    and the finish hook is registered last. *)
Theorem HandleWithResponse_success sz env b (ctx : HTTPContext)
    (req : OutboundRequest) (resp : BackendResponse) :
  ClientDoCall req ∈ st_trace (HandleWithResponse sz env (enter b ctx)).2 →
  client_Do env req = inr resp →
  (HandleWithResponse sz env (enter b ctx)).1 = Ret tt
  ∧ calls is_client_call (st_trace (HandleWithResponse sz env (enter b ctx)).2) = 1%nat
  ∧ calls is_code_count (st_trace (HandleWithResponse sz env (enter b ctx)).2) = 1%nat
  ∧ (∃ srv, srv ∈ servers b
            ∧ CodeCount (URL srv) (br_StatusCode resp)
                ∈ st_trace (HandleWithResponse sz env (enter b ctx)).2
            ∧ codes (st_backend (HandleWithResponse sz env (enter b ctx)).2)
              = codeCounter_count (codes b) srv (br_StatusCode resp))
  ∧ List.filter is_callback (st_trace (HandleWithResponse sz env (enter b ctx)).2)
    = ResponseGotCall <$> seq 0 (length (responseGotFuncs b))
  ∧ ∃ ctx2,
      st_ctx (HandleWithResponse sz env (enter b ctx)).2
      = OnFinish TagBackendDuration
          (foldl (λ c fn, fn c)
             (SetBody (br_Body resp)
                (AddRespHeaderFromStd (br_Header resp)
                   (AddTag ("backendCode:" +:+ pretty (br_StatusCode resp))
                      (SetStatusCode (br_StatusCode resp) ctx2))))
             (responseGotFuncs b)).
Proof.
  intros Hin Hdo. dispatch_paths sz env b ctx.
  - apply elem_of_cons in Hin as [Hin|Hin]; [done | inversion Hin].
  - exfalso. apply (kind_in_mid is_client_call _ hd pre [] tl) in Hin;
      auto with kinds. inversion Hin.
  - exfalso. apply (kind_in_mid is_client_call) in Hin; auto with kinds.
    repeat (apply elem_of_cons in Hin as [Hin|Hin]; [done|]). inversion Hin.
  - exfalso. apply (kind_in_mid is_client_call) in Hin; auto with kinds.
    apply elem_of_cons in Hin as [Hin|Hin]; [done|].
    apply elem_of_cons in Hin as [Hin|Hin]; [|inversion Hin].
    injection Hin as ->. congruence.
  - set (mid := [NewRequestCall m (URL server +:+ pth);
                 ClientDoCall _; CodeCount (URL server) (br_StatusCode resp0)]) in *.
    assert (∀ kind,
              (∀ x, is_cache_call x = true → kind x = false) →
              (∀ x, is_setup x = true → kind x = false) →
              (∀ k, kind (ResponseGotCall k) = false) →
              calls kind (hd ++ pre ++ mid ++
                          (ResponseGotCall <$> seq 0 (length (responseGotFuncs b))) ++ tl)
              = calls kind mid) as Hcalls.
    { intros kind Hc Hs Hk.
      rewrite (app_assoc mid), calls_mid, calls_app, calls_callbacks by done. lia. }
    assert (resp0 = resp) as ->.
    { rewrite (app_assoc mid) in Hin.
      apply (kind_in_mid is_client_call) in Hin; auto with kinds.
      apply elem_of_app in Hin as [Hin|Hin].
      - apply elem_of_cons in Hin as [Hin|Hin]; [done|].
        apply elem_of_cons in Hin as [Hin|Hin].
        + injection Hin as ->. congruence.
        + apply elem_of_cons in Hin as [Hin|Hin]; [done | inversion Hin].
      - by apply callback_not_client_call in Hin; [|apply Forall_callbacks]. }
    split; [done|]. split; [by apply Hcalls; auto with kinds|].
    split; [by apply Hcalls; auto with kinds|]. split.
    { exists server. split; [done|]. split; [|done].
      rewrite !elem_of_app. right. right. left. unfold mid.
      rewrite !elem_of_cons. auto. }
    split; [|by exists ctx2].
    rewrite !List.filter_app.
    rewrite (filter_other is_callback is_cache_call hd),
      (filter_other is_callback is_cache_call tl),
      (filter_other is_callback is_setup pre), filter_callbacks
      by auto with kinds.
    unfold mid. simpl. by rewrite app_nil_r.
Qed.

(** X12. When [http.NewRequest] rejects the method and URL the dispatcher
    built, [HandleWithResponse] returns with status 500 and the tag
    [backendBug:<error>] added last, without calling the client, the code
    counter or any callback. *)
Theorem HandleWithResponse_request_not_built sz env b (ctx : HTTPContext)
    (method url err : string) :
  NewRequestCall method url
    ∈ st_trace (HandleWithResponse sz env (enter b ctx)).2 →
  NewRequest_err env method url = Some err →
  (HandleWithResponse sz env (enter b ctx)).1 = Ret tt
  ∧ StatusCode (Response (st_ctx (HandleWithResponse sz env (enter b ctx)).2))
    = StatusInternalServerError
  ∧ last (CtxTags (st_ctx (HandleWithResponse sz env (enter b ctx)).2))
    = Some ("backendBug:" +:+ err)
  ∧ calls is_client_call (st_trace (HandleWithResponse sz env (enter b ctx)).2) = 0%nat
  ∧ calls is_code_count (st_trace (HandleWithResponse sz env (enter b ctx)).2) = 0%nat
  ∧ calls is_callback (st_trace (HandleWithResponse sz env (enter b ctx)).2) = 0%nat
  ∧ codes (st_backend (HandleWithResponse sz env (enter b ctx)).2) = codes b.
Proof.
  intros Hin Herr. dispatch_paths sz env b ctx.
  - apply elem_of_cons in Hin as [Hin|Hin]; [done | inversion Hin].
  - exfalso. apply (kind_in_mid is_new_request _ hd pre [] tl) in Hin;
      auto with kinds. inversion Hin.
  - apply (kind_in_mid is_new_request) in Hin; auto with kinds.
    apply elem_of_cons in Hin as [Hin|Hin];
      [|apply elem_of_cons in Hin as [Hin|Hin]; [done | inversion Hin]].
    injection Hin as -> ->. assert (err0 = err) as -> by congruence.
    split; [done|]. split; [done|]. split; [apply last_snoc|].
    rewrite !calls_mid by auto with kinds. done.
  - exfalso. apply (kind_in_mid is_new_request) in Hin; auto with kinds.
    apply elem_of_cons in Hin as [Hin|Hin];
      [|apply elem_of_cons in Hin as [Hin|Hin]; [done | inversion Hin]].
    injection Hin as -> ->. congruence.
  - exfalso. rewrite (app_assoc [_; _; _]) in Hin.
    apply (kind_in_mid is_new_request) in Hin; auto with kinds.
    apply elem_of_app in Hin as [Hin|Hin].
    + apply elem_of_cons in Hin as [Hin|Hin].
      * injection Hin as -> ->. congruence.
      * repeat (apply elem_of_cons in Hin as [Hin|Hin]; [done|]). inversion Hin.
    + by apply (proj1 (Forall_forall _ _) (Forall_callbacks _ _)) in Hin.
Qed.

(** X13. A response-observed callback is called only after the shared
    client has answered: on a cache hit, a panicking selection, a request
    that could not be built or a transport failure, none is. *)
Theorem HandleWithResponse_callbacks_need_response sz env b (ctx : HTTPContext)
    (k : nat) :
  ResponseGotCall k ∈ st_trace (HandleWithResponse sz env (enter b ctx)).2 →
  (k < length (responseGotFuncs b))%nat
  ∧ ∃ req resp,
      ClientDoCall req ∈ st_trace (HandleWithResponse sz env (enter b ctx)).2
      ∧ client_Do env req = inr resp.
Proof.
  intros Hin. dispatch_paths sz env b ctx.
  - apply elem_of_cons in Hin as [Hin|Hin]; [done | inversion Hin].
  - exfalso. apply (kind_in_mid is_callback _ hd pre [] tl) in Hin;
      auto with kinds. inversion Hin.
  - exfalso. apply (kind_in_mid is_callback) in Hin; auto with kinds.
    repeat (apply elem_of_cons in Hin as [Hin|Hin]; [done|]). inversion Hin.
  - exfalso. apply (kind_in_mid is_callback) in Hin; auto with kinds.
    repeat (apply elem_of_cons in Hin as [Hin|Hin]; [done|]). inversion Hin.
  - split.
    + rewrite (app_assoc [_; _; _]) in Hin.
      apply (kind_in_mid is_callback) in Hin; auto with kinds.
      apply elem_of_app in Hin as [Hin|Hin].
      * repeat (apply elem_of_cons in Hin as [Hin|Hin]; [done|]). inversion Hin.
      * apply list_elem_of_fmap in Hin as (j & [= ->] & Hj).
        apply elem_of_seq in Hj. lia.
    + eexists _, resp. split; [|exact HD].
      rewrite !elem_of_app. right. right. left.
      rewrite !elem_of_cons. auto.
Qed.


(** X15. A dispatch never changes the configuration it runs on: the pool,
    the spec, the adaptor, the cache and the registered callbacks of the
    dispatcher are the same afterwards, however the dispatch ends. *)
Theorem HandleWithResponse_keeps_configuration sz env b (ctx : HTTPContext) :
  servers (st_backend (HandleWithResponse sz env (enter b ctx)).2) = servers b
  ∧ spec (st_backend (HandleWithResponse sz env (enter b ctx)).2) = spec b
  ∧ adaptor (st_backend (HandleWithResponse sz env (enter b ctx)).2) = adaptor b
  ∧ memoryCache (st_backend (HandleWithResponse sz env (enter b ctx)).2)
    = memoryCache b
  ∧ responseGotFuncs (st_backend (HandleWithResponse sz env (enter b ctx)).2)
    = responseGotFuncs b.
Proof. dispatch_paths sz env b ctx; done. Qed.


(** X16. On a 64-bit platform a dispatch on a validated configuration (a
    load-balance section, a non-empty pool) returns normally while the
    counter fits an [int]: whatever the client and the collaborators do,
    [HandleWithResponse] does not panic. *)
Theorem HandleWithResponse_returns env b (ctx : HTTPContext) (lb : LoadBalance) :
  spec_LoadBalance (spec b) = Some lb →
  servers b ≠ [] →
  0 ≤ count b →
  count b + 1 < 2 ^ 63 →
  (HandleWithResponse Int64 env (enter b ctx)).1 = Ret tt.
Proof.
  intros Hlb Hne H0 Hlt.
  assert (∀ st, st_backend st = b →
                (forwardWithResponse Int64 env st).1 = Ret tt) as Hfwd.
  { intros st Hb.
    destruct (nextServer_returns env st lb) as (i & srv & Hret & _);
      rewrite ?Hb; try done.
    destruct (forwardWithResponse_shape Int64 env st)
      as [(p & st1 & Hn & _)
         |(i' & server & st1 & m & pth & h & ctx2 & pre & _ & _ & _ & ->)].
    - rewrite Hn in Hret. done.
    - simpl. destruct (NewRequest_err env m _); [done|].
      by destruct (client_Do env _). }
  rewrite HandleWithResponse_run. simpl.
  destruct (memoryCache b) as [mc|]; simpl; [|by apply Hfwd].
  destruct (Load mc ctx).1; [done|]. simpl. by apply Hfwd.
Qed.


End DispatchMore.

(** ** Dispatch without a response *)

Section Mirror.

Context {AdaptorSpec CacheSpec : Type}.
Implicit Types (st : @State AdaptorSpec CacheSpec)
  (b : @HTTPBackend AdaptorSpec CacheSpec).

(** [HandleWithoutResponse], path by path. *)
Lemma HandleWithoutResponse_paths sz env b (ctx : HTTPContext) :
  ∃ pre c,
    Forall (λ e, is_setup e = true) pre
    ∧ ((∃ p st1, nextServer sz env (enter b ctx) = (Panic p, st1)
                 ∧ HandleWithoutResponse sz env (enter b ctx)
                   = (Panic p, {| st_backend := set_count b c; st_ctx := ctx;
                                  st_trace := pre |}))
       ∨ ∃ server m pth h ctx2,
           server ∈ servers b
           ∧ (∀ X (f : HTTPContext → X),
                (∀ t c', f (AddTag t c') = f c') →
                (∀ a c', adaptor b = Some a →
                         f (AdaptRequest a c' false).2 = f c') →
                f ctx2 = f ctx)
           ∧ HandleWithoutResponse sz env (enter b ctx) =
             let url := URL server +:+ pth in
             let req := {| out_method := m; out_url := url; out_header := h;
                           out_body := Body (Request ctx2) |} in
             match NewRequest_err env m url with
             | Some err =>
                 (Ret tt,
                  {| st_backend := set_count b c; st_ctx := ctx2;
                     st_trace := pre ++
                       [NewRequestCall m url;
                        LogError ("BUG: new request failed: " +:+ err)] |})
             | None =>
                 match client_Do env req with
                 | inl err =>
                     (Ret tt,
                      {| st_backend := set_count b c;
                         st_ctx := AddTag ("mirrorBackendFailed:" +:+ err) ctx2;
                         st_trace := pre ++
                           [NewRequestCall m url; ClientDoCall req] |})
                 | inr resp =>
                     (Ret tt,
                      {| st_backend :=
                           set_codes (set_count b c)
                             (codeCounter_count (codes b) server
                                (br_StatusCode resp));
                         st_ctx := ctx2;
                         st_trace := pre ++
                           [NewRequestCall m url; ClientDoCall req;
                            CodeCount (URL server) (br_StatusCode resp);
                            DrainBody] |})
                 end
             end).
Proof.
  destruct (nextServer_effect sz env (enter b ctx))
    as (Hctx & _ & Hadp & _ & logs & Htr & Hlogs).
  destruct (nextServer_backend sz env (enter b ctx)) as [c Hback].
  unfold HandleWithoutResponse, m_bind.
  destruct (nextServer sz env (enter b ctx)) as [[[i server]|p] st1] eqn:Hn;
    simpl in Hctx, Htr, Hback, Hadp.
  - destruct (adaptRequest_shape false
                {| st_backend := st_backend st1;
                   st_ctx := AddTag ("mirrorBackendAddr:" +:+ URL server) (st_ctx st1);
                   st_trace := st_trace st1 |})
      as (m & pth & h & ctx2 & pre & Had & Hpre & Hnone & Hsome).
    exists (logs ++ pre), c. split; [by apply Forall_app|]. right.
    exists server, m, pth, h, ctx2. split.
    { pose proof (nextServer_Ret sz env (enter b ctx) i server) as Hret.
      rewrite Hn in Hret. destruct (Hret eq_refl) as [_ Hlook].
      by apply list_elem_of_lookup_2 in Hlook. }
    split.
    { intros X f Htag Hadapt. simpl in Hnone, Hsome.
      destruct (adaptor (st_backend st1)) as [a|] eqn:Ha.
      - rewrite (Hsome a eq_refl), Hadapt, Htag, Hctx; [done|].
        by rewrite <- Hadp.
      - destruct (Hnone eq_refl) as (_ & -> & _). by rewrite Htag, Hctx. }
    unfold update_ctx at 1. simpl. simpl in Had. rewrite Had. simpl.
    unfold get_ctx, emit, update_ctx, get_backend, put_backend. simpl.
    rewrite Hback, Htr. simpl.
    destruct (NewRequest_err env m (URL server +:+ pth)) as [err|]; simpl.
    + by rewrite <- !app_assoc.
    + destruct (client_Do env _) as [err|resp]; simpl; by rewrite <- !app_assoc.
  - exists logs, c. split; [done|]. left. exists p, st1. split; [done|].
    simpl. f_equal. rewrite <- Hback, <- Hctx, <- Htr. by destruct st1.
Qed.

Local Ltac mirror_paths sz env b ctx :=
  let Hr := fresh "Hr" in
  destruct (HandleWithoutResponse_paths sz env b ctx)
    as (?pre & ?c & ?Hpre &
        [(?p & ?st1 & ?Hn & Hr)
        |(?server & ?m & ?pth & ?h & ?ctx2 & ?Hsrv & ?Hframe & Hr)]);
    [ | cbv zeta in Hr;
        destruct (NewRequest_err env m (URL server +:+ pth)) as [?err|] eqn:?HE;
        [ | match type of Hr with
            | context [client_Do env ?r] =>
                destruct (client_Do env r) as [?err|?resp] eqn:?HD
            end ] ];
    rewrite Hr in *; clear Hr;
    cbn [fst snd st_trace st_backend st_ctx] in *.

Lemma client_call_after_setup (pre mid : list event) (req : OutboundRequest) :
  Forall (λ e, is_setup e = true) pre →
  ClientDoCall req ∈ pre ++ mid → ClientDoCall req ∈ mid.
Proof.
  intros Hpre Hin. apply elem_of_app in Hin as [Hin|Hin]; [|done].
  by apply setup_not_client_call in Hin.
Qed.


(** X19. When the shared client fails on the mirror path,
    [HandleWithoutResponse] returns normally with the tag
    [mirrorBackendFailed:<error>] added last; the client was called once,
    the code counter is untouched and no body is drained. *)
Theorem HandleWithoutResponse_transport_failure sz env b (ctx : HTTPContext)
    (req : OutboundRequest) (err : string) :
  ClientDoCall req ∈ st_trace (HandleWithoutResponse sz env (enter b ctx)).2 →
  client_Do env req = inl err →
  (HandleWithoutResponse sz env (enter b ctx)).1 = Ret tt
  ∧ last (CtxTags (st_ctx (HandleWithoutResponse sz env (enter b ctx)).2))
    = Some ("mirrorBackendFailed:" +:+ err)
  ∧ calls is_client_call (st_trace (HandleWithoutResponse sz env (enter b ctx)).2)
    = 1%nat
  ∧ codes (st_backend (HandleWithoutResponse sz env (enter b ctx)).2) = codes b
  ∧ DrainBody ∉ st_trace (HandleWithoutResponse sz env (enter b ctx)).2.
Proof.
  intros Hin Hdo. mirror_paths sz env b ctx.
  - by apply setup_not_client_call in Hin.
  - apply client_call_after_setup in Hin; [|done].
    repeat (apply elem_of_cons in Hin as [Hin|Hin]; [done|]). inversion Hin.
  - apply client_call_after_setup in Hin; [|done].
    apply elem_of_cons in Hin as [Hin|Hin]; [done|].
    apply elem_of_cons in Hin as [Hin|Hin]; [|inversion Hin].
    injection Hin as ->. assert (err0 = err) as -> by congruence.
    split; [done|]. split; [apply last_snoc|]. split.
    { rewrite calls_app, (calls_other is_client_call is_setup pre);
        auto using setup_not_client, setup_not_count. }
    split; [done|].
    intros Hd. apply elem_of_app in Hd as [Hd|Hd].
    + by apply (proj1 (Forall_forall _ _) Hpre) in Hd.
    + repeat (apply elem_of_cons in Hd as [Hd|Hd]; [done|]). inversion Hd.
  - apply client_call_after_setup in Hin; [|done].
    apply elem_of_cons in Hin as [Hin|Hin]; [done|].
    apply elem_of_cons in Hin as [Hin|Hin].
    + injection Hin as ->. congruence.
    + repeat (apply elem_of_cons in Hin as [Hin|Hin]; [done|]). inversion Hin.
Qed.

(** X20. When the shared client answers on the mirror path,
    [HandleWithoutResponse] counts the status once, for a server of the
    pool, and ends by handing the body to the draining task; the client
    was called once. *)
Theorem HandleWithoutResponse_success sz env b (ctx : HTTPContext)
    (req : OutboundRequest) (resp : BackendResponse) :
  ClientDoCall req ∈ st_trace (HandleWithoutResponse sz env (enter b ctx)).2 →
  client_Do env req = inr resp →
  (HandleWithoutResponse sz env (enter b ctx)).1 = Ret tt
  ∧ last (st_trace (HandleWithoutResponse sz env (enter b ctx)).2) = Some DrainBody
  ∧ calls is_client_call (st_trace (HandleWithoutResponse sz env (enter b ctx)).2)
    = 1%nat
  ∧ calls is_code_count (st_trace (HandleWithoutResponse sz env (enter b ctx)).2)
    = 1%nat
  ∧ ∃ srv, srv ∈ servers b
           ∧ codes (st_backend (HandleWithoutResponse sz env (enter b ctx)).2)
             = codeCounter_count (codes b) srv (br_StatusCode resp).
Proof.
  intros Hin Hdo. mirror_paths sz env b ctx.
  - by apply setup_not_client_call in Hin.
  - apply client_call_after_setup in Hin; [|done].
    repeat (apply elem_of_cons in Hin as [Hin|Hin]; [done|]). inversion Hin.
  - apply client_call_after_setup in Hin; [|done].
    apply elem_of_cons in Hin as [Hin|Hin]; [done|].
    apply elem_of_cons in Hin as [Hin|Hin]; [|inversion Hin].
    injection Hin as ->. congruence.
  - apply client_call_after_setup in Hin; [|done].
    assert (resp0 = resp) as ->.
    { apply elem_of_cons in Hin as [Hin|Hin]; [done|].
      apply elem_of_cons in Hin as [Hin|Hin].
      - injection Hin as ->. congruence.
      - repeat (apply elem_of_cons in Hin as [Hin|Hin]; [done|]). inversion Hin. }
    split; [done|]. split.
    { rewrite (app_assoc pre [_; _; _] [DrainBody] : pre ++ [_; _; _; DrainBody] = _).
      apply last_snoc. }
    rewrite !calls_app,
      (calls_other is_client_call is_setup pre),
      (calls_other is_code_count is_setup pre) by auto using setup_not_client, setup_not_count.
    split; [done|]. split; [done|]. by exists server.
Qed.

(** X21. On a 64-bit platform the mirror path returns normally on a
    validated configuration while the counter fits an [int]: no failure of
    the client or of request construction aborts the caller. *)
Theorem HandleWithoutResponse_returns env b (ctx : HTTPContext) (lb : LoadBalance) :
  spec_LoadBalance (spec b) = Some lb →
  servers b ≠ [] →
  0 ≤ count b →
  count b + 1 < 2 ^ 63 →
  (HandleWithoutResponse Int64 env (enter b ctx)).1 = Ret tt.
Proof.
  intros Hlb Hne H0 Hlt.
  destruct (nextServer_returns env (enter b ctx) lb) as (i & srv & Hret & _);
    try done.
  mirror_paths Int64 env b ctx; try done.
  rewrite Hn in Hret. done.
Qed.

End Mirror.

(** ** Registration of callbacks *)

(** X22. Callbacks registered one after the other end up behind those
    already there, in the order of registration, and registering them
    changes nothing else of the dispatcher. *)
Theorem OnResponseGot_order {AdaptorSpec CacheSpec : Type}
    (b : @HTTPBackend AdaptorSpec CacheSpec) (fns : list ResponseGotFunc) :
  responseGotFuncs (foldl OnResponseGot b fns) = responseGotFuncs b ++ fns
  ∧ servers (foldl OnResponseGot b fns) = servers b
  ∧ count (foldl OnResponseGot b fns) = count b
  ∧ codes (foldl OnResponseGot b fns) = codes b
  ∧ spec (foldl OnResponseGot b fns) = spec b
  ∧ adaptor (foldl OnResponseGot b fns) = adaptor b
  ∧ memoryCache (foldl OnResponseGot b fns) = memoryCache b.
Proof.
  revert b. induction fns as [|fn fns IH]; intros b; simpl.
  - by rewrite app_nil_r.
  - destruct (IH (OnResponseGot b fn)) as (-> & -> & -> & -> & -> & -> & ->).
    simpl. by rewrite <- app_assoc.
Qed.

(** ** The further properties on the demo deployment *)

Lemma HandleWithResponse_success_witness :
  ClientDoCall demoOutbound
    ∈ st_trace (HandleWithResponse Int64 okEnv (enter demoBackend (demoCtx ∅))).2
  ∧ client_Do okEnv demoOutbound = inr okResponse
  ∧ (HandleWithResponse Int64 okEnv (enter demoBackend (demoCtx ∅))).1 = Ret tt
  ∧ calls is_code_count
      (st_trace (HandleWithResponse Int64 okEnv (enter demoBackend (demoCtx ∅))).2)
    = 1%nat.
Proof.
  assert (ClientDoCall demoOutbound
            ∈ st_trace (HandleWithResponse Int64 okEnv
                          (enter demoBackend (demoCtx ∅))).2) as Hin.
  { apply (list_elem_of_lookup_2 _ 1%nat). vm_compute. reflexivity. }
  split; [exact Hin|]. split; [reflexivity|].
  pose proof (HandleWithResponse_success Int64 okEnv demoBackend (demoCtx ∅)
                demoOutbound okResponse Hin eq_refl) as (Hret & _ & Hcount & _).
  split; [exact Hret | exact Hcount].
Defined.

Lemma HandleWithResponse_request_not_built_witness :
  NewRequestCall "GET" "http://b/"
    ∈ st_trace (HandleWithResponse Int64 bugEnv (enter demoBackend (demoCtx ∅))).2
  ∧ NewRequest_err bugEnv "GET" "http://b/" = Some "invalid method"%string
  ∧ StatusCode (Response (st_ctx (HandleWithResponse Int64 bugEnv
                                    (enter demoBackend (demoCtx ∅))).2))
    = StatusInternalServerError.
Proof.
  assert (NewRequestCall "GET" "http://b/"
            ∈ st_trace (HandleWithResponse Int64 bugEnv
                          (enter demoBackend (demoCtx ∅))).2) as Hin.
  { apply (list_elem_of_lookup_2 _ 0%nat). vm_compute. reflexivity. }
  split; [exact Hin|]. split; [reflexivity|].
  exact (proj1 (proj2 (HandleWithResponse_request_not_built Int64 bugEnv
                         demoBackend (demoCtx ∅) "GET" "http://b/"
                         "invalid method" Hin eq_refl))).
Defined.

Lemma HandleWithResponse_callbacks_need_response_witness :
  ResponseGotCall 0
    ∈ st_trace (HandleWithResponse Int64 okEnv
                  (enter (OnResponseGot demoBackend (AddTag "seen")) (demoCtx ∅))).2
  ∧ (0 < length (responseGotFuncs (OnResponseGot demoBackend (AddTag "seen"))))%nat.
Proof.
  assert (ResponseGotCall 0
            ∈ st_trace (HandleWithResponse Int64 okEnv
                          (enter (OnResponseGot demoBackend (AddTag "seen"))
                             (demoCtx ∅))).2) as Hin.
  { apply (list_elem_of_lookup_2 _ 3%nat). vm_compute. reflexivity. }
  split; [exact Hin|].
  exact (proj1 (HandleWithResponse_callbacks_need_response Int64 okEnv
                  (OnResponseGot demoBackend (AddTag "seen")) (demoCtx ∅) 0%nat Hin)).
Defined.


Lemma HandleWithResponse_returns_witness :
  servers demoBackend ≠ []
  ∧ count demoBackend + 1 < 2 ^ 63
  ∧ (HandleWithResponse Int64 downEnv (enter demoBackend (demoCtx ∅))).1 = Ret tt.
Proof.
  split; [discriminate|]. split; [reflexivity|].
  exact (HandleWithResponse_returns downEnv demoBackend (demoCtx ∅)
           {| Policy := policyRoundRobin; HeaderHashKey := "X-Key" |}
           eq_refl ltac:(discriminate) ltac:(discriminate) eq_refl).
Defined.



Lemma HandleWithoutResponse_transport_failure_witness :
  ClientDoCall demoOutbound
    ∈ st_trace (HandleWithoutResponse Int64 downEnv
                  (enter demoBackend (demoCtx ∅))).2
  ∧ client_Do downEnv demoOutbound = inl "connection refused"%string
  ∧ last (CtxTags (st_ctx (HandleWithoutResponse Int64 downEnv
                             (enter demoBackend (demoCtx ∅))).2))
    = Some "mirrorBackendFailed:connection refused"%string.
Proof.
  assert (ClientDoCall demoOutbound
            ∈ st_trace (HandleWithoutResponse Int64 downEnv
                          (enter demoBackend (demoCtx ∅))).2) as Hin.
  { apply (list_elem_of_lookup_2 _ 1%nat). vm_compute. reflexivity. }
  split; [exact Hin|]. split; [reflexivity|].
  exact (proj1 (proj2 (HandleWithoutResponse_transport_failure Int64 downEnv
                         demoBackend (demoCtx ∅) demoOutbound
                         "connection refused" Hin eq_refl))).
Defined.

Lemma HandleWithoutResponse_success_witness :
  ClientDoCall demoOutbound
    ∈ st_trace (HandleWithoutResponse Int64 okEnv (enter demoBackend (demoCtx ∅))).2
  ∧ client_Do okEnv demoOutbound = inr okResponse
  ∧ last (st_trace (HandleWithoutResponse Int64 okEnv
                      (enter demoBackend (demoCtx ∅))).2)
    = Some DrainBody.
Proof.
  assert (ClientDoCall demoOutbound
            ∈ st_trace (HandleWithoutResponse Int64 okEnv
                          (enter demoBackend (demoCtx ∅))).2) as Hin.
  { apply (list_elem_of_lookup_2 _ 1%nat). vm_compute. reflexivity. }
  split; [exact Hin|]. split; [reflexivity|].
  exact (proj1 (proj2 (HandleWithoutResponse_success Int64 okEnv demoBackend
                         (demoCtx ∅) demoOutbound okResponse Hin eq_refl))).
Defined.

Lemma HandleWithoutResponse_returns_witness :
  servers demoBackend ≠ []
  ∧ count demoBackend + 1 < 2 ^ 63
  ∧ (HandleWithoutResponse Int64 bugEnv (enter demoBackend (demoCtx ∅))).1 = Ret tt.
Proof.
  split; [discriminate|]. split; [reflexivity|].
  exact (HandleWithoutResponse_returns bugEnv demoBackend (demoCtx ∅)
           {| Policy := policyRoundRobin; HeaderHashKey := "X-Key" |}
           eq_refl ltac:(discriminate) ltac:(discriminate) eq_refl).
Defined.

(** ** The validation recorder *)

Lemma Split_cons_inv (s : string) (sep : Ascii.ascii) :
  ∃ piece pieces, Split s sep = piece :: pieces.
Proof.
  induction s as [|c s (piece & pieces & IH)]; simpl; [by eexists _, _|].
  destruct (Ascii.eqb c sep); [by eexists _, _|].
  rewrite IH. by eexists _, _.
Qed.

Lemma Split_no_sep (s : string) (sep : Ascii.ascii) :
  has_byte sep s = false → Split s sep = [s].
Proof.
  induction s as [|c s IH]; simpl; [done|].
  intros Hno. apply orb_false_iff in Hno as [Hc Hs].
  rewrite Hc, (IH Hs). done.
Qed.

(** Splitting at a separator: the pieces before it, then the pieces after. *)
Lemma Split_at_sep (a b : string) (sep : Ascii.ascii) :
  Split (a +:+ String sep b) sep = Split a sep ++ Split b sep.
Proof.
  induction a as [|c a IH]; simpl.
  - by rewrite Ascii.eqb_refl.
  - destruct (Ascii.eqb c sep); [by rewrite IH|].
    rewrite IH. destruct (Split_cons_inv a sep) as (piece & pieces & ->). done.
Qed.

(** X23. [getFieldYAMLName] returns the text of the field's [yaml] tag up to
    its first comma: the whole tag when it has no comma, hence the empty
    string, not the field's Go name, for a field without a [yaml] tag. *)
Theorem getFieldYAMLName_first (field : StructField) :
  (has_byte comma (Tag field "yaml") = false →
   getFieldYAMLName field = Tag field "yaml")
  ∧ (∀ name opts,
       has_byte comma name = false →
       Tag field "yaml" = name +:+ String comma opts →
       getFieldYAMLName field = name)
  ∧ (Tag field "yaml" = ""%string → getFieldYAMLName field = ""%string).
Proof.
  unfold getFieldYAMLName. split; [|split].
  - intros Hno. by rewrite (Split_no_sep _ _ Hno).
  - intros name opts Hno ->.
    rewrite Split_at_sep, (Split_no_sep _ _ Hno). simpl.
    destruct (Z.ltb_spec 0 (len (name :: Split opts comma))) as [_|Hle]; [done|].
    unfold len in Hle. simpl in Hle. lia.
  - intros ->. done.
Qed.

(** X24. [requiredFromField] answers "not required" exactly when the first
    comma-separated part of the [jsonschema] tag is [-] or some part is
    [omitempty]. So a field without the tag is required, and a tag ending
    in [,omitempty] makes any field optional. *)
Theorem requiredFromField_false_iff (field : StructField) :
  (requiredFromField field = false ↔
   (∃ rest, Split (Tag field "jsonschema") comma = "-"%string :: rest)
   ∨ "omitempty"%string ∈ Split (Tag field "jsonschema") comma)
  ∧ (Tag field "jsonschema" = ""%string → requiredFromField field = true)
  ∧ (∀ pre, Tag field "jsonschema" = pre +:+ ",omitempty" →
            requiredFromField field = false).
Proof.
  assert (requiredFromField field = false ↔
          (∃ rest, Split (Tag field "jsonschema") comma = "-"%string :: rest)
          ∨ "omitempty"%string ∈ Split (Tag field "jsonschema") comma) as Hiff.
  { unfold requiredFromField.
    destruct (Split_cons_inv (Tag field "jsonschema") comma)
      as (piece & pieces & ->).
    replace (len (piece :: pieces) =? 0) with false
      by (symmetry; apply Z.eqb_neq; unfold len; simpl; lia).
    destruct (String.eqb_spec piece "-") as [->|Hne].
    - split; [|done]. intros _. left. by eexists.
    - destruct (existsb _ _) eqn:Hex.
      + split; [|done]. intros _. right.
        apply existsb_exists in Hex as (x & Hin & Heq).
        apply String.eqb_eq in Heq as ->. by apply list_elem_of_In.
      + split; [done|]. intros [[rest [= ? _]]|Hin]; [done|].
        assert (existsb (λ tag, String.eqb tag "omitempty") (piece :: pieces)
                = true) as Hyes; [|congruence].
        apply existsb_exists. exists "omitempty"%string.
        split; [by apply list_elem_of_In | done]. }
  split; [exact Hiff|]. split.
  - intros Htag. unfold requiredFromField. by rewrite Htag.
  - intros pre Htag. apply Hiff. right.
    rewrite Htag.
    change (pre +:+ ",omitempty")%string
      with (pre +:+ String comma "omitempty")%string.
    rewrite Split_at_sep. apply elem_of_app. right. simpl. left.
Qed.



(** X26. Recording a backend spec: when its tag filter picks no server the
    recorder gains exactly one general error, the field's name followed by
    the validator's message; when it picks one the recorder is left as it
    was. *)
Theorem recordGeneral_Spec {AdaptorSpec CacheSpec : Type}
    (s : @Spec AdaptorSpec CacheSpec) (vr : ValidateRecorder)
    (typeName : string) (field : StructField) :
  (pickServers s = [] →
   recordGeneral vr typeName (Some field) (Some (Spec_Validator s))
   = {| JSONSchemaErrs := JSONSchemaErrs vr; FormatErrs := FormatErrs vr;
        GeneralErrs := GeneralErrs vr ++
          [getFieldYAMLName field +:+ ": serversTags picks none of servers"];
        SystemErr := SystemErr vr |})
  ∧ (pickServers s ≠ [] →
     recordGeneral vr typeName (Some field) (Some (Spec_Validator s)) = vr).
Proof.
  unfold recordGeneral, Spec_Validator, Spec_Validate. simpl. split.
  - intros Hnil. apply len_zero in Hnil. by rewrite Hnil.
  - intros Hne.
    destruct (len (pickServers s) =? 0) eqn:Hlen; [|done].
    by apply len_zero in Hlen.
Qed.

(** An untagged field is named by the empty string, and is required. *)
Example untagged_field :
  getFieldYAMLName {| Name := "Servers"; Tag := λ _, ""%string |} = ""%string
  ∧ requiredFromField {| Name := "Servers"; Tag := λ _, ""%string |} = true.
Proof. vm_compute. auto. Qed.

(** The [Servers] field of the backend spec, tagged [yaml:"servers"], and a
    spec whose filter picks nothing. *)
Example record_empty_pool :
  GeneralErrs
    (recordGeneral
       {| JSONSchemaErrs := []; FormatErrs := []; GeneralErrs := []; SystemErr := "" |}
       "httpbackend.Spec"
       (Some {| Name := "Backend";
                Tag := λ key, if String.eqb key "yaml" then "backend,omitempty"
                              else ""%string |})
       (Some (Spec_Validator (demoSpec ["v3"%string] policyRoundRobin))))
  = ["backend: serversTags picks none of servers"%string].
Proof. vm_compute. reflexivity. Qed.
